(** * World Chain batch pipeline: acquisition, storage and decoding

    A shallow embedding of the Python pipeline

      - [src/data_acquisition/l1_client.py]     (class [L1Client])
      - [src/data_acquisition/batch_fetcher.py] (classes [BatchSubmission],
                                                 [BatchFetcher])
      - [src/decoding/batch_decoder.py]         (class [BatchDecoder])
      - [src/main.py]                           (the decode loop of [main])
      - [config/settings.py]                    (the constants)

    Python code that raises, logs, talks to the Ethereum node and writes to
    the database is written in a state-and-exception monad over a [World]:
    a raised exception keeps every effect that happened before it, as in
    Python. *)

From Stdlib Require Import ZArith List String Ascii Bool Lia Sorted.
From Stdlib Require Strings.Byte.
Import ListNotations.

Set Warnings "-register-all".

Local Open Scope string_scope.
Local Open Scope list_scope.
Local Open Scope Z_scope.

(** ** Bytes and hexadecimal text *)

Definition byte := Byte.byte.

Definition bytes := list byte.

Definition hex_digit (n : N) : ascii :=
  nth (N.to_nat n)
      ["0"; "1"; "2"; "3"; "4"; "5"; "6"; "7";
       "8"; "9"; "a"; "b"; "c"; "d"; "e"; "f"]%char "f"%char.

(** The two lower-case hex digits of one byte. *)
Definition hex_byte (b : byte) (rest : string) : string :=
  let n := Byte.to_N b in
  String (hex_digit (n / 16)) (String (hex_digit (n mod 16)) rest).

(** [eth_utils.to_hex] on a bytes value: ["0x"] followed by two digits
    per byte. *)
Definition to_hex (bs : bytes) : string :=
  ("0x" ++ fold_right hex_byte EmptyString bs)%string.

(** [HexBytes.hex()], as in the releases of hexbytes that put ["0x"] in
    front; nothing below depends on the prefix. *)
Definition hexbytes_hex (bs : bytes) : string := to_hex bs.

(** [eth_utils.to_hex] on an integer that came out of iterating a bytes
    object (so it is below 256): Python's [hex], without leading zeros. *)
Definition to_hex_int (b : byte) : string :=
  let n := Byte.to_N b in
  if (n <? 16)%N then String "0" (String "x" (String (hex_digit n) EmptyString))
  else String "0" (String "x" (String (hex_digit (n / 16))
         (String (hex_digit (n mod 16)) EmptyString))).

(** [str.lower()] on the ASCII text of an address. *)
Definition ascii_lower (c : ascii) : ascii :=
  let n := nat_of_ascii c in
  if ((65 <=? n)%nat && (n <=? 90)%nat)%bool then ascii_of_nat (n + 32) else c.

Fixpoint lower (s : string) : string :=
  match s with
  | EmptyString => EmptyString
  | String c s' => String (ascii_lower c) (lower s')
  end.

(** ** Data model *)

(** A transaction as web3 returns it inside a block fetched with
    [full_transactions=True].  [tx_type] is [tx.get('type')], [tx_to] is
    [tx['to']] ([None] for a contract creation), [tx_hash] is [tx['hash']],
    [blobVersionedHashes] is the value of that key when it is present. *)
Record Tx := mkTx {
  tx_type : option Z;
  tx_to : option string;
  tx_hash : bytes;
  blobVersionedHashes : option (list bytes)
}.

Record Block := mkBlock { transactions : list Tx }.

(** The dictionaries built by [get_world_chain_batches]. *)
Record Batch := mkBatch {
  batch_block_number : Z;
  batch_transaction_hash : string;
  batch_raw_data : Tx
}.

(** A row of table [batch_submissions] (class [BatchSubmission]). *)
Record BatchSubmission := mkRow {
  id : Z;
  block_number : Z;
  transaction_hash : string;
  raw_data : Tx;
  timestamp : Z;
  processed : Z
}.

(** ** Exceptions, log records, the node *)

(** What a call into web3 can fail with. *)
Inductive TransportFailure :=
| Timeout
| ConnectionDropped
| NotFound.

(** Python exceptions.  [StatementError] is SQLAlchemy's wrapper around
    an exception raised while the parameters of a statement are bound.
    [RpcUnavailable] is the error the specification names for an
    exhausted retry; no code path of the program raises it. *)
Inductive exn :=
| TransportError (f : TransportFailure)
| TypeError (msg : string)
| ValueError (msg : string)
| DecodingError (msg : string)
| IntegrityError (msg : string)
| OverflowError (msg : string)
| StatementError (orig : exn)
| RpcUnavailable.

Inductive result (A : Type) :=
| Ok (a : A)
| Raise (e : exn).
Arguments Ok {A} a.
Arguments Raise {A} e.

(** The Ethereum node as the program sees it through [self.w3.eth]: what
    a call returns, or the failure it raises.  The first argument of each
    field is the number of calls the process has made so far, so the same
    call may be answered differently on a later attempt. *)
Record Node := mkNode {
  eth_blockNumber : nat -> TransportFailure + Z;
  eth_getBlockByNumber : nat -> Z -> TransportFailure + Block
}.

(** Log records, with the arguments of the source's format strings. *)
Inductive LogRecord :=
| InfoFetching (current_block batch_end : Z)
| InfoStored (count : nat)
| ErrorFetching (e : exn)
| ErrorProcessingBlock (block_num : Z) (e : exn)
| ErrorRlpDecoding (e : exn)
| ErrorBatchDecoding (e : exn)
| ErrorBlobDecoding (e : exn)
| ErrorProcessingBatch (batch_id : Z) (e : exn).

(** A [BatchSubmission] object added to the session and not yet flushed:
    [id], [timestamp] and [processed] get their values at the INSERT. *)
Record Submission := mkSubmission {
  new_block_number : Z;
  new_transaction_hash : string;
  new_raw_data : Tx
}.

(** Everything the program reads or changes outside its local variables. *)
Record World := mkWorld {
  node : Node;
  rpc_attempts : nat;
  utcnow : nat -> Z;
  clock_reads : nat;
  db : list BatchSubmission;
  session_new : list Submission;
  log : list LogRecord
}.

(** ** The monad *)

(** A computation over a state [S] that returns or raises; the state it
    leaves is kept in both cases. *)
Definition St (S A : Type) : Type := S -> result A * S.

Definition M : Type -> Type := St World.

Definition ret {S A} (a : A) : St S A := fun s => (Ok a, s).

Definition raise {S A} (e : exn) : St S A := fun s => (Raise e, s).

Definition bind {S A B} (m : St S A) (k : A -> St S B) : St S B :=
  fun s =>
    match m s with
    | (Ok a, s') => k a s'
    | (Raise e, s') => (Raise e, s')
    end.

(** [try: body except Exception as e: handler e]. *)
Definition try_except {S A} (body : St S A) (handler : exn -> St S A) : St S A :=
  fun s =>
    match body s with
    | (Ok a, s') => (Ok a, s')
    | (Raise e, s') => handler e s'
    end.

Declare Scope py_scope.
Delimit Scope py_scope with py.
Notation "x <- m ;; k" := (bind m (fun x => k))
  (at level 100, m at next level, right associativity) : py_scope.
Notation "m ;; k" := (bind m (fun _ => k))
  (at level 100, right associativity) : py_scope.
Local Open Scope py_scope.

(** [for x in xs: body x], leaving the loop at the first exception that
    [body] lets through. *)
Fixpoint for_each {S A} (xs : list A) (body : A -> St S unit) : St S unit :=
  match xs with
  | [] => ret tt
  | x :: xs' => body x ;; for_each xs' body
  end.

(** [for x in xs: acc = body acc x], for a loop that builds a local value. *)
Fixpoint for_acc {S A B} (xs : list A) (body : B -> A -> St S B) (acc : B)
  : St S B :=
  match xs with
  | [] => ret acc
  | x :: xs' => acc' <- body acc x ;; for_acc xs' body acc'
  end.

(** [logger.info] / [logger.error]. *)
Definition logger (r : LogRecord) : M unit :=
  fun w => (Ok tt,
            mkWorld (node w) (rpc_attempts w) (utcnow w) (clock_reads w)
                    (db w) (session_new w) (log w ++ [r])).

(** [range(lo, hi)]. *)
Definition range (lo hi : Z) : list Z :=
  map (fun i => lo + Z.of_nat i) (seq 0 (Z.to_nat (hi - lo))).

(** ** [config/settings.py] *)

Definition BATCH_SIZE : Z := 100.
Definition START_BLOCK : Z := 19400000.
Definition END_BLOCK : option Z := None.

(** ** [L1Client] (src/data_acquisition/l1_client.py) *)

(** One call into web3 has been made. *)
Definition request_sent (w : World) : World :=
  mkWorld (node w) (S (rpc_attempts w)) (utcnow w) (clock_reads w)
          (db w) (session_new w) (log w).

(** A failed call surfaces as the exception web3 raised. *)
Definition rpc_result {A} (r : TransportFailure + A) : result A :=
  match r with
  | inl f => Raise (TransportError f)
  | inr a => Ok a
  end.

(** [return self.w3.eth.block_number] *)
Definition get_latest_block : M Z :=
  fun w => (rpc_result (eth_blockNumber (node w) (rpc_attempts w)),
            request_sent w).

(** [return self.w3.eth.get_block(block_number, full_transactions=True)] *)
Definition get_block (block_number : Z) : M Block :=
  fun w => (rpc_result (eth_getBlockByNumber (node w) (rpc_attempts w) block_number),
            request_sent w).

(** [tx.get('type') == 3] *)
Definition is_blob_type (tx : Tx) : bool :=
  match tx_type tx with
  | Some t => t =? 3
  | None => false
  end.

Definition get_blob_transactions (block_number : Z) : M (list Tx) :=
  block <- get_block block_number ;;
  ret (fold_left
         (fun blob_txs tx => if is_blob_type tx then blob_txs ++ [tx] else blob_txs)
         (transactions block) []).

Section WorldChain.

(** [WORLD_CHAIN_ADDRESS] of config/settings.py, read from the environment. *)
Variable WORLD_CHAIN_ADDRESS : string.

(** [tx['to'] and tx['to'].lower() == WORLD_CHAIN_ADDRESS.lower()]:
    [None] and the empty string are falsy. *)
Definition to_world_chain (tx : Tx) : bool :=
  match tx_to tx with
  | None => false
  | Some a => negb (a =? "")%string && (lower a =? lower WORLD_CHAIN_ADDRESS)%string
  end.

(** The body of [for block_num in range(start_block, end_block + 1)], with
    its [try] / [except Exception: log; continue]. *)
Definition scan_block (batches : list Batch) (block_num : Z) : M (list Batch) :=
  try_except
    (blob_txs <- get_blob_transactions block_num ;;
     ret (fold_left
            (fun batches tx =>
               if to_world_chain tx
               then batches ++ [mkBatch block_num (hexbytes_hex (tx_hash tx)) tx]
               else batches)
            blob_txs batches))
    (fun e => logger (ErrorProcessingBlock block_num e) ;; ret batches).

Definition get_world_chain_batches (start_block : Z) (end_block : option Z)
  : M (list Batch) :=
  end_block <- match end_block with
               | None => get_latest_block
               | Some e => ret e
               end ;;
  for_acc (range start_block (end_block + 1)) scan_block [].

(** ** [BatchFetcher] (src/data_acquisition/batch_fetcher.py) *)

(** [self.session.add(submission)] *)
Definition session_add (s : Submission) : M unit :=
  fun w => (Ok tt,
            mkWorld (node w) (rpc_attempts w) (utcnow w) (clock_reads w)
                    (db w) (session_new w ++ [s]) (log w)).

(** The primary key SQLite gives the next row: one more than the largest. *)
Definition next_id (rows : list BatchSubmission) : Z :=
  1 + fold_right (fun r m => Z.max (id r) m) 0 rows.

(** Column [transaction_hash] is [unique=True]. *)
Definition hash_taken (rows : list BatchSubmission) (h : string) : bool :=
  existsb (fun r => (transaction_hash r =? h)%string) rows.

Definition unique_violation : exn :=
  IntegrityError "UNIQUE constraint failed: batch_submissions.transaction_hash".

(** Column [block_number] is an SQLite INTEGER, a signed 64-bit value. *)
Definition integer_overflow : exn :=
  OverflowError "Python int too large to convert to SQLite INTEGER".

(** Column [raw_data] is [Column(JSON)]: when the parameters of the
    INSERT are bound, its value goes through [json.dumps].  The value is
    the transaction object web3 returned, handed on unchanged by
    [get_world_chain_batches] (['raw_data': tx]) and by [fetch_batches]
    ([raw_data=batch['raw_data']]): an [AttributeDict] whose hash and
    versioned hashes are [HexBytes] (the scan calls [tx['hash'].hex()]). *)
Inductive PyObject :=
| ObjNone
| ObjInt (n : Z)
| ObjStr (s : string)
| ObjHexBytes (b : bytes)
| ObjList (items : list PyObject)
| ObjAttributeDict (entries : list (string * PyObject)).

(** A transaction as the Python object it is. *)
Definition tx_object (tx : Tx) : PyObject :=
  ObjAttributeDict
    (match tx_type tx with
     | Some t => [("type", ObjInt t)]
     | None => []
     end
     ++ [("to", match tx_to tx with
                | Some a => ObjStr a
                | None => ObjNone
                end);
         ("hash", ObjHexBytes (tx_hash tx))]
     ++ match blobVersionedHashes tx with
        | Some hs => [("blobVersionedHashes", ObjList (map ObjHexBytes hs))]
        | None => []
        end).

(** The type of the first object [json.dumps] has no encoding for.  It
    encodes [None], integers, strings and lists of what it encodes (and
    [dict], [float] and [bool], which do not occur here); [AttributeDict]
    is a mapping but not a [dict], [HexBytes] is a [bytes]. *)
Fixpoint json_refused_type (v : PyObject) : option string :=
  match v with
  | ObjNone | ObjInt _ | ObjStr _ => None
  | ObjHexBytes _ => Some "HexBytes"
  | ObjAttributeDict _ => Some "AttributeDict"
  | ObjList items =>
      (fix first_refused (l : list PyObject) : option string :=
         match l with
         | [] => None
         | x :: l' =>
             match json_refused_type x with
             | Some t => Some t
             | None => first_refused l'
             end
         end) items
  end.

(** [json.dumps(v)], as far as its raising or not goes. *)
Definition json_dumps (v : PyObject) : result unit :=
  match json_refused_type v with
  | Some t =>
      Raise (TypeError ("Object of type " ++ t ++ " is not JSON serializable"))
  | None => Ok tt
  end.

(** The INSERTs of a flush, in the order the objects were added.  The
    pair is the table and the number of [datetime.utcnow] defaults read.
    An INSERT whose [raw_data] cannot be serialized raises while its
    parameters are bound; one whose block number does not fit the column
    raises in the driver; one that violates the unique constraint raises
    in the database. *)
Fixpoint flush (now : nat -> Z) (pending : list Submission)
         (st : list BatchSubmission * nat)
  : result (list BatchSubmission * nat) :=
  match pending with
  | [] => Ok st
  | s :: pending' =>
      let (rows, reads) := st in
      match json_dumps (tx_object (new_raw_data s)) with
      | Raise e => Raise (StatementError e)
      | Ok _ =>
          if (new_block_number s <? - 2 ^ 63) || (2 ^ 63 <=? new_block_number s)
          then Raise integer_overflow
          else if hash_taken rows (new_transaction_hash s)
          then Raise unique_violation
          else flush now pending'
                 (rows ++ [mkRow (next_id rows) (new_block_number s)
                                 (new_transaction_hash s) (new_raw_data s)
                                 (now reads) 0],
                  S reads)
      end
  end.

(** A flush of the session: all pending rows are inserted in one
    transaction; an exception leaves the table as it was at the last
    commit. *)
Definition session_flush : M unit :=
  fun w =>
    match flush (utcnow w) (session_new w) (db w, clock_reads w) with
    | Ok (rows, reads) =>
        (Ok tt, mkWorld (node w) (rpc_attempts w) (utcnow w) reads rows [] (log w))
    | Raise e =>
        (Raise e, w)
    end.

(** [self.session.commit()]: the flush, made permanent. *)
Definition session_commit : M unit := session_flush.

(** [self.session.rollback()] *)
Definition session_rollback : M unit :=
  fun w => (Ok tt,
            mkWorld (node w) (rpc_attempts w) (utcnow w) (clock_reads w)
                    (db w) [] (log w)).

(** One turn of [while current_block <= end_block]; the value is the new
    [current_block]. *)
Definition fetch_window (current_block end_block : Z) : M Z :=
  try_except
    (let batch_end := Z.min (current_block + BATCH_SIZE - 1) end_block in
     logger (InfoFetching current_block batch_end) ;;
     batches <- get_world_chain_batches current_block (Some batch_end) ;;
     for_each batches
       (fun batch =>
          session_add (mkSubmission (batch_block_number batch)
                                    (batch_transaction_hash batch)
                                    (batch_raw_data batch))) ;;
     session_commit ;;
     logger (InfoStored (List.length batches)) ;;
     ret (batch_end + 1))
    (fun e =>
       logger (ErrorFetching e) ;;
       session_rollback ;;
       ret (current_block + BATCH_SIZE)).

(** The [while] loop, with the number of turns it may still take; [None]
    when that number runs out. *)
Fixpoint fetch_loop (fuel : nat) (current_block end_block : Z) (w : World)
  : option (result unit * World) :=
  if current_block <=? end_block then
    match fuel with
    | O => None
    | S fuel' =>
        match fetch_window current_block end_block w with
        | (Ok next, w') => fetch_loop fuel' next end_block w'
        | (Raise e, w') => Some (Raise e, w')
        end
    end
  else Some (Ok tt, w).

Definition fetch_batches (start_block : Z) (end_block : option Z) (w : World)
  : option (result unit * World) :=
  match (match end_block with
         | None => get_latest_block
         | Some e => ret e
         end) w with
  | (Ok end_block, w') =>
      fetch_loop (Z.to_nat (end_block - start_block + 1)) start_block end_block w'
  | (Raise e, w') => Some (Raise e, w')
  end.

(** [session.query(BatchSubmission).filter_by(processed=0).all()]: no
    ORDER BY, the rows come in table (primary key) order.  The session
    has nothing pending when this runs (see [fetch_loop_total]),
    so the query's autoflush has nothing to write. *)
Definition get_unprocessed_batches : M (list BatchSubmission) :=
  fun w => (Ok (filter (fun b => processed b =? 0) (db w)), w).

(** [batch.processed = 1] on the row [session.query(...).get(batch_id)]
    found. *)
Fixpoint set_processed (batch_id : Z) (rows : list BatchSubmission)
  : list BatchSubmission :=
  match rows with
  | [] => []
  | r :: rows' =>
      if id r =? batch_id
      then mkRow (id r) (block_number r) (transaction_hash r) (raw_data r)
                 (timestamp r) 1 :: rows'
      else r :: set_processed batch_id rows'
  end.

(** [session.query(BatchSubmission).get(batch_id)] flushes what is
    pending before it reads (autoflush); then
    [if batch: batch.processed = 1; self.session.commit()]. *)
Definition mark_as_processed (batch_id : Z) : M unit :=
  session_flush ;;
  (fun w =>
     if existsb (fun r => id r =? batch_id) (db w)
     then
       (session_commit
          (mkWorld (node w) (rpc_attempts w) (utcnow w) (clock_reads w)
                   (set_processed batch_id (db w)) (session_new w) (log w)))
     else (Ok tt, w)).

End WorldChain.

(** ** [BatchDecoder] (src/decoding/batch_decoder.py) *)

(** What [rlp.decode] returns: a byte string or a list of items. *)
Inductive RlpItem :=
| RlpBytes (b : bytes)
| RlpList (items : list RlpItem).

(** The dictionary [_decode_blob] returns. *)
Record DecodedBlob := mkDecodedBlob {
  blob_raw_data : string;
  decoded_data : list string;
  size : Z
}.

(** The dictionary [decode_batch] returns. *)
Record DecodedBatch := mkDecodedBatch {
  decoded_block_number : Z;
  decoded_transaction_hash : string;
  blobs : list DecodedBlob
}.

(** What [decode_batch] is handed: the dictionary its signature asks for,
    or, from [main], a [BatchSubmission] object. *)
Inductive BatchData :=
| DictBatch (d : Batch)
| RowBatch (r : BatchSubmission).

(** [batch_data[key]]: an ORM object has no [__getitem__]. *)
Definition getitem {A} (batch_data : BatchData) (field : Batch -> A) : M A :=
  match batch_data with
  | DictBatch d => ret (field d)
  | RowBatch _ => raise (TypeError "'BatchSubmission' object is not subscriptable")
  end.

(** [return b''] *)
Definition _fetch_blob_content (blob_hash : bytes) : bytes := [].

(** The L2 transaction dictionaries the pipeline would hand on; the core
    never looks inside one. *)
Record L2Tx := mkL2Tx {
  l2_type : option string;
  l2_to : option string;
  l2_from : option string
}.

(** The loop of [extract_l2_transactions], whose body is [pass]. *)
Definition extract_l2_transactions (decoded_batch : DecodedBatch) : list L2Tx :=
  fold_left (fun transactions blob => transactions) (blobs decoded_batch) [].

Section Decoder.

(** [rlp.decode] of the pyrlp library: the item, or the exception raised. *)
Variable rlp_decode : bytes -> result RlpItem.

Definition decode_rlp (data : bytes) : M RlpItem :=
  try_except
    (fun w => (rlp_decode data, w))
    (fun e => logger (ErrorRlpDecoding e) ;; raise e).

(** [[to_hex(item) for item in decoded]]: iterating a byte string gives
    its integers, [to_hex] of a nested list raises. *)
Definition hex_items (decoded : RlpItem) : M (list string) :=
  match decoded with
  | RlpBytes b => ret (map to_hex_int b)
  | RlpList items =>
      for_acc items
        (fun hexes item =>
           match item with
           | RlpBytes b => ret (hexes ++ [to_hex b])
           | RlpList _ => raise (TypeError "Unsupported type: list")
           end)
        []
  end.

Definition _decode_blob (blob_content : bytes) : M DecodedBlob :=
  try_except
    (decoded <- decode_rlp blob_content ;;
     hexes <- hex_items decoded ;;
     ret (mkDecodedBlob (to_hex blob_content) hexes
                        (Z.of_nat (List.length blob_content))))
    (fun e => logger (ErrorBlobDecoding e) ;; raise e).

(** The loop [for blob_hash in blob_data] of [decode_batch], which appends
    to [decoded_batch['blobs']]; [fetch] is the method it calls for the
    blob content. *)
Definition blob_loop (fetch : bytes -> bytes) (blob_data : list bytes)
  : list DecodedBlob -> M (list DecodedBlob) :=
  for_acc blob_data
    (fun blobs blob_hash =>
       let blob_content := fetch blob_hash in
       match blob_content with
       | [] => ret blobs
       | _ :: _ =>
           decoded_blob <- _decode_blob blob_content ;;
           ret (blobs ++ [decoded_blob])
       end).

(** [decode_batch], with the method it calls for the blob content as an
    argument. *)
Definition decode_batch_with (fetch : bytes -> bytes) (batch_data : BatchData)
  : M DecodedBatch :=
  try_except
    (raw <- getitem batch_data batch_raw_data ;;
     let blob_data := match blobVersionedHashes raw with
                      | Some hashes => hashes
                      | None => []
                      end in
     match blob_data with
     | [] => raise (ValueError "No blob data found in transaction")
     | _ :: _ =>
         block_number <- getitem batch_data batch_block_number ;;
         transaction_hash <- getitem batch_data batch_transaction_hash ;;
         blobs <- blob_loop fetch blob_data [] ;;
         ret (mkDecodedBatch block_number transaction_hash blobs)
     end)
    (fun e => logger (ErrorBatchDecoding e) ;; raise e).

Definition decode_batch : BatchData -> M DecodedBatch :=
  decode_batch_with _fetch_blob_content.

(** ** The decode loop of [main] (src/main.py) *)

(** The collaborators outside the pipeline core: the metrics of
    src/analysis/metrics.py (floating point, wall clock) and Python's
    [len(str(...))] of a dictionary. *)
Variable Metrics : Type.
Variable calculate_batch_metrics : DecodedBatch -> M Metrics.
Variable len_str_decoded : DecodedBatch -> Z.

(** The dictionary [BatchModifier.reconstruct_batch] returns; [metadata]
    is [original_batch.get('metadata', {})], and a decoded batch has no
    such key. *)
Record ReconstructedBatch := mkReconstructed {
  rec_block_number : Z;
  rec_transaction_hash : string;
  rec_transactions : list L2Tx;
  rec_metadata : list (string * string)
}.

Variable len_str_reconstructed : ReconstructedBatch -> Z.
Variable _matches_criteria : L2Tx -> bool.

Definition filter_transactions (transactions : list L2Tx) : list L2Tx :=
  fold_left
    (fun filtered_txs tx =>
       if _matches_criteria tx then filtered_txs ++ [tx] else filtered_txs)
    transactions [].

Definition reconstruct_batch (original_batch : DecodedBatch)
           (filtered_transactions : list L2Tx) : ReconstructedBatch :=
  mkReconstructed (decoded_block_number original_batch)
                  (decoded_transaction_hash original_batch)
                  filtered_transactions [].

(** The local lists of [main], next to the world. *)
Record MainState := mkMain {
  world : World;
  metrics_data : list Metrics;
  original_sizes : list Z;
  modified_sizes : list Z
}.

Definition in_world {A} (m : M A) : St MainState A :=
  fun s =>
    let (r, w') := m (world s) in
    (r, mkMain w' (metrics_data s) (original_sizes s) (modified_sizes s)).

Definition append_original (m : Metrics) (n : Z) : St MainState unit :=
  fun s => (Ok tt, mkMain (world s) (metrics_data s ++ [m])
                          (original_sizes s ++ [n]) (modified_sizes s)).

Definition append_modified (n : Z) : St MainState unit :=
  fun s => (Ok tt, mkMain (world s) (metrics_data s) (original_sizes s)
                          (modified_sizes s ++ [n])).

(** The body of [for batch in unprocessed_batches], with its [try] /
    [except Exception: log; continue].  [decoded_batch.get('transactions',
    [])] is the default: a decoded batch has no such key. *)
Definition process_batch (batch : BatchSubmission) : St MainState unit :=
  try_except
    (decoded_batch <- in_world (decode_batch (RowBatch batch)) ;;
     original_metrics <- in_world (calculate_batch_metrics decoded_batch) ;;
     append_original original_metrics (len_str_decoded decoded_batch) ;;
     let filtered_txs := filter_transactions [] in
     let modified_batch := reconstruct_batch decoded_batch filtered_txs in
     append_modified (len_str_reconstructed modified_batch) ;;
     in_world (mark_as_processed (id batch)))
    (fun e => in_world (logger (ErrorProcessingBatch (id batch) e))).

Definition decode_loop (unprocessed_batches : list BatchSubmission)
  : St MainState unit :=
  for_each unprocessed_batches process_batch.

End Decoder.

Arguments mkMain {Metrics}.
Arguments world {Metrics}.
Arguments metrics_data {Metrics}.
Arguments original_sizes {Metrics}.
Arguments modified_sizes {Metrics}.

(** ** Definitions used to state the properties *)

(** Following the specification's words (section 4.1): a chain-reader
    call retried on a transport failure up to [max_attempts] requests,
    failing with [RpcUnavailable] when they are used up.  The waiting
    between two attempts takes time only and is not represented.  The
    program has no such function; this one is what its calls are
    compared with. *)
Fixpoint spec_retry {A} (request : nat -> TransportFailure + A)
         (max_attempts : nat) : M A :=
  match max_attempts with
  | O => raise RpcUnavailable
  | S n =>
      fun w =>
        match request (rpc_attempts w) with
        | inr a => (Ok a, request_sent w)
        | inl _ => spec_retry request n (request_sent w)
        end
  end.

Definition spec_get_block (max_attempts : nat) (block_number : Z) : M Block :=
  fun w =>
    spec_retry (fun k => eth_getBlockByNumber (node w) k block_number)
               max_attempts w.

Definition spec_get_latest_block (max_attempts : nat) : M Z :=
  fun w => spec_retry (eth_blockNumber (node w)) max_attempts w.



(** Following the specification's words (section 4.2): the two
    predicates a transaction must satisfy to become a batch record. *)
Definition spec_is_batch (address : string) (tx : Tx) : Prop :=
  tx_type tx = Some 3 /\
  exists a, tx_to tx = Some a /\ lower a = lower address.

(** A node that answers a request the same way whenever it is asked. *)
Definition stable (nd : Node) : Prop :=
  (forall i j, eth_blockNumber nd i = eth_blockNumber nd j) /\
  (forall i j n, eth_getBlockByNumber nd i n = eth_getBlockByNumber nd j n).

(** The batch dictionary of one transaction. *)
Definition batch_of (block_num : Z) (tx : Tx) : Batch :=
  mkBatch block_num (hexbytes_hex (tx_hash tx)) tx.

(** What one block contributes when it is requested as the [attempt]-th
    request: its matching transactions, or nothing when the request fails. *)
Definition block_batches (address : string) (nd : Node) (attempt : nat)
           (block_num : Z) : list Batch :=
  match eth_getBlockByNumber nd attempt block_num with
  | inr blk =>
      map (batch_of block_num)
          (filter (fun tx => is_blob_type tx && to_world_chain address tx)
                  (transactions blk))
  | inl _ => []
  end.

Fixpoint range_batches (address : string) (nd : Node) (attempt : nat)
         (blocks : list Z) : list Batch :=
  match blocks with
  | [] => []
  | n :: rest =>
      block_batches address nd attempt n
      ++ range_batches address nd (S attempt) rest
  end.

(** The log records of the failed requests of a range. *)
Fixpoint range_errors (nd : Node) (attempt : nat) (blocks : list Z)
  : list LogRecord :=
  match blocks with
  | [] => []
  | n :: rest =>
      match eth_getBlockByNumber nd attempt n with
      | inr _ => []
      | inl f => [ErrorProcessingBlock n (TransportError f)]
      end ++ range_errors nd (S attempt) rest
  end.

Definition submission_of (b : Batch) : Submission :=
  mkSubmission (batch_block_number b) (batch_transaction_hash b)
               (batch_raw_data b).

(** The columns of a row that come from the scanned transaction. *)
Definition row_batch (r : BatchSubmission) : Batch :=
  mkBatch (block_number r) (transaction_hash r) (raw_data r).

Definition hashes (rows : list BatchSubmission) : list string :=
  map transaction_hash rows.

(** ** A sample chain *)

Definition rollup_address : string := "0xAbCd".

Definition tx_bb : Tx :=
  mkTx (Some 3) (Some "0xabcd") [Byte.xbb] (Some [[Byte.x01]]).
Definition tx_aa : Tx :=
  mkTx (Some 3) (Some "0xABCD") [Byte.xaa] (Some [[Byte.x01]; [Byte.x02]]).
Definition tx_elsewhere : Tx :=
  mkTx (Some 3) (Some "0x1234") [Byte.xcc] (Some [[Byte.x03]]).
Definition tx_legacy : Tx :=
  mkTx (Some 2) (Some "0xabcd") [Byte.xdd] None.
Definition tx_late : Tx :=
  mkTx (Some 3) (Some "0xabcd") [Byte.xee] (Some [[Byte.x04]]).

(** Block 100 holds four transactions and block 102 one; the request for
    block 102 times out on every attempt before the tenth; all other
    blocks are empty. *)
Definition sample_node : Node :=
  mkNode (fun _ => inr 104)
         (fun attempt n =>
            if n =? 100 then inr (mkBlock [tx_bb; tx_elsewhere; tx_legacy; tx_aa])
            else if n =? 102
                 then if (attempt <? 10)%nat then inl Timeout
                      else inr (mkBlock [tx_late])
                 else inr (mkBlock [])).

(** The same chain behind a node that always answers. *)
Definition steady_node : Node :=
  mkNode (fun _ => inr 104)
         (fun _ n =>
            if n =? 100 then inr (mkBlock [tx_bb; tx_elsewhere; tx_legacy; tx_aa])
            else if n =? 102 then inr (mkBlock [tx_late])
            else inr (mkBlock [])).

(** A node behind which the request for block 102 times out on every
    attempt before the tenth, and no other block holds a transaction. *)
Definition quiet_node : Node :=
  mkNode (fun _ => inr 104)
         (fun attempt n =>
            if n =? 102
            then if (attempt <? 10)%nat then inl Timeout
                 else inr (mkBlock [tx_late])
            else inr (mkBlock [])).
(** A node whose first answer to anything is a timeout. *)
Definition flaky_node : Node :=
  mkNode (fun attempt => if (attempt <? 1)%nat then inl Timeout else inr 104)
         (fun attempt n =>
            if (attempt <? 1)%nat then inl Timeout else inr (mkBlock [tx_bb])).

(** A node that never answers. *)
Definition dead_node : Node :=
  mkNode (fun _ => inl ConnectionDropped) (fun _ _ => inl ConnectionDropped).

Definition fresh_world (nd : Node) : World :=
  mkWorld nd 0 (fun k => 1700000000 + Z.of_nat k) 0 [] [] [].

(** The decoding rule of RLP as [rlp.decode] applies it by default
    (strict): a single byte below 0x80 is itself; 0x80..0xb7 announce a
    string of up to 55 bytes, 0xb8..0xbf a longer one whose length follows;
    0xc0..0xf7 and 0xf8..0xff do the same for lists; lengths must be
    minimal, payloads must be there in full, and nothing may follow the
    item.  It stands for the library where a concrete input is run; the
    properties below hold for any [rlp.decode]. *)
Definition be_value (bs : bytes) : N :=
  fold_left (fun acc b => acc * 256 + Byte.to_N b)%N bs 0%N.

(** The payload length a long prefix announces in its first [ll] bytes,
    with the bytes after them. *)
Definition long_length (ll : nat) (rest : bytes) : option (nat * bytes) :=
  if (List.length rest <? ll)%nat then None
  else
    match firstn ll rest with
    | [] => None
    | (z :: _) as lbytes =>
        let len := be_value lbytes in
        let rest' := skipn ll rest in
        if (Byte.to_N z =? 0)%N then None
        else if (len <? 56)%N then None
        else if (N.of_nat (List.length rest') <? len)%N then None
        else Some (N.to_nat len, rest')
    end.

Fixpoint rlp_item (fuel : nat) (data : bytes) : option (RlpItem * bytes) :=
  match fuel with
  | O => None
  | S fuel' =>
      match data with
      | [] => None
      | b0 :: rest =>
          let n := N.to_nat (Byte.to_N b0) in
          if (n <? 128)%nat then Some (RlpBytes [b0], rest)
          else if (n <? 184)%nat then
            let len := (n - 128)%nat in
            if (List.length rest <? len)%nat then None
            else
              match firstn len rest with
              | [b] =>
                  if (Byte.to_N b <? 128)%N then None
                  else Some (RlpBytes [b], skipn len rest)
              | payload => Some (RlpBytes payload, skipn len rest)
              end
          else if (n <? 192)%nat then
            match long_length (n - 183) rest with
            | Some (len, rest') =>
                Some (RlpBytes (firstn len rest'), skipn len rest')
            | None => None
            end
          else if (n <? 248)%nat then
            let len := (n - 192)%nat in
            if (List.length rest <? len)%nat then None
            else
              match rlp_items fuel' (firstn len rest) with
              | Some items => Some (RlpList items, skipn len rest)
              | None => None
              end
          else
            match long_length (n - 247) rest with
            | Some (len, rest') =>
                match rlp_items fuel' (firstn len rest') with
                | Some items => Some (RlpList items, skipn len rest')
                | None => None
                end
            | None => None
            end
      end
  end
with rlp_items (fuel : nat) (payload : bytes) : option (list RlpItem) :=
  match fuel with
  | O => None
  | S fuel' =>
      match payload with
      | [] => Some []
      | _ :: _ =>
          match rlp_item fuel' payload with
          | Some (item, rest) =>
              match rlp_items fuel' rest with
              | Some items => Some (item :: items)
              | None => None
              end
          | None => None
          end
      end
  end.

Definition rlp_decode_strict (data : bytes) : result RlpItem :=
  match rlp_item (2 * List.length data + 2) data with
  | Some (item, []) => Ok item
  | Some (_, _ :: _) =>
      Raise (DecodingError "RLP string ends with superfluous bytes")
  | None => Raise (DecodingError "RLP string too short")
  end.

(** The world after [k] more requests and the log records [lg]. *)
Definition scan_world (w : World) (k : nat) (lg : list LogRecord) : World :=
  mkWorld (node w) (rpc_attempts w + k) (utcnow w) (clock_reads w)
          (db w) (session_new w) (log w ++ lg).

(** The last block of the window that starts at [current_block]. *)
Definition window_end (current_block end_block : Z) : Z :=
  Z.min (current_block + BATCH_SIZE - 1) end_block.

(** The batches the scan of that window hands to the store. *)
Definition window_batches (address : string) (w : World)
           (current_block end_block : Z) : list Batch :=
  range_batches address (node w) (rpc_attempts w)
                (range current_block (window_end current_block end_block + 1)).

(** The rows [get_unprocessed_batches] returns, or none if it raised. *)
Definition pending_rows (w : World) : list BatchSubmission :=
  match fst (get_unprocessed_batches w) with
  | Ok rows => rows
  | Raise _ => []
  end.

(** A computation whose outcome does not depend on the world it runs
    in: not on the clock, the log, the node or the table. *)
Definition world_independent {A} (m : M A) : Prop :=
  forall w1 w2, fst (m w1) = fst (m w2).

(** [if blob_content:] *)
Definition has_content (blob_content : bytes) : bool :=
  match blob_content with
  | [] => false
  | _ :: _ => true
  end.

Definition no_blob_data : exn :=
  ValueError "No blob data found in transaction".

Definition not_subscriptable : exn :=
  TypeError "'BatchSubmission' object is not subscriptable".

(** What [main] logs for a record it hands to [decode_batch]. *)
Definition record_trace (batch : BatchSubmission) : list LogRecord :=
  [ErrorBatchDecoding not_subscriptable;
   ErrorProcessingBatch (id batch) not_subscriptable].

(** The RLP prefix of a three-byte string followed by two bytes only. *)
Definition truncated_blob : bytes := [Byte.x83; Byte.x61; Byte.x62].

(** A row of the table, as [main] meets it. *)
Definition sample_row : BatchSubmission :=
  mkRow 1 100 "0xbb" tx_bb 1700000000 0.

(** Tables as an earlier writer left them: the record of block 102
    alone; the three records of the sample chain written in the order of
    their blocks; and the same three with the record of block 102 written
    first. *)
Definition row_late : BatchSubmission :=
  mkRow 1 102 "0xee" tx_late 1700000000 0.

Definition table_by_block : list BatchSubmission :=
  [sample_row;
   mkRow 2 100 "0xaa" tx_aa 1700000001 0;
   mkRow 3 102 "0xee" tx_late 1700000002 0].


(** A process that starts on the table [rows]. *)
Definition world_with_table (nd : Node) (rows : list BatchSubmission) : World :=
  mkWorld nd 0 (fun k => 1700000000 + Z.of_nat k) (List.length rows) rows [] [].

(** ** [BatchDecoder.validate_batch] and the dictionaries it is given *)

(** Python values, as far as the dictionaries of the pipeline hold them. *)
Inductive PyValue :=
| PyNone
| PyInt (n : Z)
| PyStr (s : string)
| PyList (items : list PyValue)
| PyDictV (entries : list (string * PyValue)).

Definition PyDict := list (string * PyValue).

(** [key in d] *)
Definition has_key (d : PyDict) (key : string) : bool :=
  existsb (fun entry => (fst entry =? key)%string) d.

(** [d[key]], when the key is there. *)
Fixpoint lookup (d : PyDict) (key : string) : option PyValue :=
  match d with
  | [] => None
  | (k, v) :: d' => if (k =? key)%string then Some v else lookup d' key
  end.

(** [validate_batch] on a dictionary: nothing in its [try] raises then, so
    nothing is logged.  Should ['blobs'] be missing after the first test
    passed, the [KeyError] would be caught and the answer be [False]. *)
Definition validate_batch (decoded_batch : PyDict) : bool :=
  let required_fields := ["block_number"; "transaction_hash"; "blobs"] in
  if negb (forallb (fun field => has_key decoded_batch field) required_fields)
  then false
  else
    match lookup decoded_batch "blobs" with
    | Some (PyList _) => true
    | _ => false
    end.

(** The dictionary literal of [_decode_blob]. *)
Definition blob_dict (b : DecodedBlob) : PyValue :=
  PyDictV [("raw_data", PyStr (blob_raw_data b));
           ("decoded_data", PyList (map PyStr (decoded_data b)));
           ("size", PyInt (size b))].

(** The dictionary literal of [decode_batch], with the blobs appended. *)
Definition decoded_batch_dict (d : DecodedBatch) : PyDict :=
  [("block_number", PyInt (decoded_block_number d));
   ("transaction_hash", PyStr (decoded_transaction_hash d));
   ("blobs", PyList (map blob_dict (blobs d)))].

Definition l2tx_dict (tx : L2Tx) : PyValue :=
  PyDictV
    (match l2_type tx with Some t => [("type", PyStr t)] | None => [] end
     ++ match l2_to tx with Some a => [("to", PyStr a)] | None => [] end
     ++ match l2_from tx with Some a => [("from", PyStr a)] | None => [] end).

(** The dictionary literal of [BatchModifier.reconstruct_batch]. *)
Definition reconstructed_dict (r : ReconstructedBatch) : PyDict :=
  [("block_number", PyInt (rec_block_number r));
   ("transaction_hash", PyStr (rec_transaction_hash r));
   ("transactions", PyList (map l2tx_dict (rec_transactions r)));
   ("metadata", PyDictV (map (fun kv => (fst kv, PyStr (snd kv)))
                             (rec_metadata r)))].

(** ** [BatchMetrics._count_transaction_types] (src/analysis/metrics.py) *)

(** [type_counts.get(key, 0)] on a dictionary kept in insertion order. *)
Fixpoint counts_get (type_counts : list (string * Z)) (key : string) : Z :=
  match type_counts with
  | [] => 0
  | (k, v) :: rest => if (k =? key)%string then v else counts_get rest key
  end.

(** [type_counts[key] = value]: an existing key keeps its place, a new
    one goes last. *)
Fixpoint counts_set (type_counts : list (string * Z)) (key : string) (value : Z)
  : list (string * Z) :=
  match type_counts with
  | [] => [(key, value)]
  | (k, v) :: rest =>
      if (k =? key)%string then (k, value) :: rest
      else (k, v) :: counts_set rest key value
  end.

(** [tx.get('type', 'UNKNOWN')] *)
Definition type_or_unknown (tx : L2Tx) : string :=
  match l2_type tx with
  | Some t => t
  | None => "UNKNOWN"
  end.

(** The argument is [batch_data.get('transactions')]: [None] when the key
    is missing, and the default [[]] is used. *)
Definition _count_transaction_types (transactions : option (list L2Tx))
  : list (string * Z) :=
  let transactions := match transactions with
                      | Some txs => txs
                      | None => []
                      end in
  fold_left
    (fun type_counts tx =>
       let tx_type := type_or_unknown tx in
       counts_set type_counts tx_type (counts_get type_counts tx_type + 1))
    transactions [].

(** ** [BatchModifier.compress_batch], [decompress_batch]
       (src/manipulation/batch_modifier.py) *)

Definition COMPRESSION_ALGORITHMS : list string := ["zlib"; "brotli"].

(** The log records of the modifier's own logger. *)
Inductive ModifierLog :=
| ErrorCompressing (e : exn)
| ErrorDecompressing (e : exn).

Definition unsupported_algorithm (algorithm : string) : exn :=
  ValueError ("Unsupported compression algorithm: " ++ algorithm)%string.

Section Compression.

(** The two libraries: compressing returns, decompressing may raise. *)
Variable zlib_compress brotli_compress : bytes -> bytes.
Variable zlib_decompress brotli_decompress : bytes -> result bytes.

(** The value is [None] where the Python function would fall off its
    [if] / [elif] and return [None]. *)
Definition compress_batch (batch_data : bytes) (algorithm : string)
  : St (list ModifierLog) (option bytes) :=
  try_except
    (if negb (existsb (String.eqb algorithm) COMPRESSION_ALGORITHMS)
     then raise (unsupported_algorithm algorithm)
     else if (algorithm =? "zlib")%string
          then ret (Some (zlib_compress batch_data))
          else if (algorithm =? "brotli")%string
               then ret (Some (brotli_compress batch_data))
               else ret None)
    (fun e => (fun lg => (Ok tt, lg ++ [ErrorCompressing e])) ;; raise e).

Definition decompress_batch (compressed_data : bytes) (algorithm : string)
  : St (list ModifierLog) (option bytes) :=
  try_except
    (if negb (existsb (String.eqb algorithm) COMPRESSION_ALGORITHMS)
     then raise (unsupported_algorithm algorithm)
     else if (algorithm =? "zlib")%string
          then (data <- (fun lg => (zlib_decompress compressed_data, lg)) ;;
                ret (Some data))
          else if (algorithm =? "brotli")%string
               then (data <- (fun lg => (brotli_decompress compressed_data, lg)) ;;
                     ret (Some data))
               else ret None)
    (fun e => (fun lg => (Ok tt, lg ++ [ErrorDecompressing e])) ;; raise e).

End Compression.

(** [item] as a byte string, when it is one. *)
Definition item_bytes (item : RlpItem) : option bytes :=
  match item with
  | RlpBytes b => Some b
  | RlpList _ => None
  end.

Definition nested_list : exn := TypeError "Unsupported type: list".

(** What holds of a batch the scan of the blocks [lo..hi] returns. *)
Definition scanned_from (address : string) (lo hi : Z) (b : Batch) : Prop :=
  lo <= batch_block_number b <= hi
  /\ batch_transaction_hash b = hexbytes_hex (tx_hash (batch_raw_data b))
  /\ is_blob_type (batch_raw_data b) = true
  /\ to_world_chain address (batch_raw_data b) = true.

Definition block_order (a b : Batch) : Prop :=
  batch_block_number a <= batch_block_number b.

(** The hex texts of a decoded item, when every element has one: of the
    integers of a byte string, or of the byte strings of a flat list. *)
Fixpoint all_bytes (items : list RlpItem) : option (list bytes) :=
  match items with
  | [] => Some []
  | RlpBytes b :: rest =>
      match all_bytes rest with
      | Some bs => Some (b :: bs)
      | None => None
      end
  | RlpList _ :: _ => None
  end.

Definition hex_values (decoded : RlpItem) : option (list string) :=
  match decoded with
  | RlpBytes b => Some (map to_hex_int b)
  | RlpList items =>
      match all_bytes items with
      | Some bs => Some (map to_hex bs)
      | None => None
      end
  end.

(** A row with its [processed] column left out. *)
Definition row_columns (r : BatchSubmission) : Z * Batch * Z :=
  (id r, row_batch r, timestamp r).

Definition other_id (batch_id : Z) (r : BatchSubmission) : bool :=
  negb (id r =? batch_id).

Definition counts_total (type_counts : list (string * Z)) : Z :=
  fold_right (fun kv total => snd kv + total) 0 type_counts.

(** The RLP of the list of "cat" and "dog", and of a list holding the
    empty list. *)
Definition cat_dog_blob : bytes :=
  [Byte.xc8; Byte.x83; Byte.x63; Byte.x61; Byte.x74;
   Byte.x83; Byte.x64; Byte.x6f; Byte.x67].

Definition nested_blob : bytes := [Byte.xc1; Byte.xc0].

(** The row's id is not among [ids]. *)
Definition not_marked (ids : list Z) (r : BatchSubmission) : bool :=
  negb (existsb (fun batch_id => id r =? batch_id) ids).

(** What [json.dumps] raises on a transaction object, as SQLAlchemy
    hands it on. *)
Definition not_json_serializable : exn :=
  StatementError
    (TypeError "Object of type AttributeDict is not JSON serializable").

(** Two ways of supplying blob content other than the program's: the
    blob of the versioned hash 01 holds the list of "cat" and "dog", or
    the truncated string, and no other hash has content. *)
Definition first_blob_only (blob_hash : bytes) : bytes :=
  match blob_hash with
  | [Byte.x01] => cat_dog_blob
  | _ => []
  end.

Definition first_blob_truncated (blob_hash : bytes) : bytes :=
  match blob_hash with
  | [Byte.x01] => truncated_blob
  | _ => []
  end.

(** * Properties *)

(** ** Loops that append are filters *)

Lemma fold_left_select {A B} (p : A -> bool) (g : A -> B) (xs : list A) :
  forall acc,
    fold_left (fun acc x => if p x then acc ++ [g x] else acc) xs acc
    = acc ++ map g (filter p xs).
Proof.
  induction xs as [|x xs IH]; intros acc; simpl.
  - now rewrite app_nil_r.
  - rewrite IH. destruct (p x); simpl; [now rewrite <- app_assoc | reflexivity].
Qed.

Lemma scan_world_0 w : scan_world w 0 [] = w.
Proof.
  destruct w; unfold scan_world; simpl.
  now rewrite Nat.add_0_r, app_nil_r.
Qed.

Lemma scan_world_scan_world w k1 l1 k2 l2 :
  scan_world (scan_world w k1 l1) k2 l2 = scan_world w (k1 + k2) (l1 ++ l2).
Proof.
  unfold scan_world; simpl. now rewrite Nat.add_assoc, app_assoc.
Qed.

(** ** The chain reader *)

Lemma get_blob_transactions_run (n : Z) (w : World) :
  get_blob_transactions n w
  = (match eth_getBlockByNumber (node w) (rpc_attempts w) n with
     | inr blk => Ok (filter is_blob_type (transactions blk))
     | inl f => Raise (TransportError f)
     end, request_sent w).
Proof.
  unfold get_blob_transactions, bind, get_block, ret.
  destruct (eth_getBlockByNumber (node w) (rpc_attempts w) n) as [f|blk]; simpl.
  - reflexivity.
  - rewrite (fold_left_select is_blob_type (fun tx => tx)).
    now rewrite map_id.
Qed.

Lemma filter_filter {A} (p q : A -> bool) (xs : list A) :
  filter q (filter p xs) = filter (fun x => p x && q x) xs.
Proof.
  induction xs as [|x xs IH]; simpl; [reflexivity|].
  destruct (p x); simpl; [destruct (q x)|]; now rewrite IH.
Qed.

Section Scan.

Variable address : string.

(** One block of the scan never raises: it adds the block's matching
    transactions, or logs the failed request and adds nothing. *)
Lemma scan_block_run (acc : list Batch) (n : Z) (w : World) :
  scan_block address acc n w
  = (Ok (acc ++ block_batches address (node w) (rpc_attempts w) n),
     scan_world w 1 (range_errors (node w) (rpc_attempts w) [n])).
Proof.
  unfold scan_block, try_except, bind.
  rewrite get_blob_transactions_run.
  unfold block_batches, range_errors, scan_world, request_sent, logger, ret.
  destruct (eth_getBlockByNumber (node w) (rpc_attempts w) n) as [f|blk]; simpl.
  - rewrite !app_nil_r, Nat.add_1_r. reflexivity.
  - rewrite (fold_left_select (to_world_chain address) (batch_of n)).
    rewrite filter_filter, !app_nil_r, Nat.add_1_r.
    destruct w; reflexivity.
Qed.

Lemma scan_range_run (blocks : list Z) :
  forall acc w,
    for_acc blocks (scan_block address) acc w
    = (Ok (acc ++ range_batches address (node w) (rpc_attempts w) blocks),
       scan_world w (List.length blocks)
                  (range_errors (node w) (rpc_attempts w) blocks)).
Proof.
  induction blocks as [|n blocks IH]; intros acc w.
  - simpl. unfold ret. now rewrite app_nil_r, scan_world_0.
  - cbn [for_acc]. unfold bind. rewrite scan_block_run, IH.
    rewrite scan_world_scan_world. cbn [scan_world node rpc_attempts].
    rewrite Nat.add_1_r, <- app_assoc. cbn [range_batches range_errors].
    rewrite app_nil_r.
    reflexivity.
Qed.

Lemma get_world_chain_batches_run (start_block end_block : Z) (w : World) :
  get_world_chain_batches address start_block (Some end_block) w
  = (Ok (range_batches address (node w) (rpc_attempts w)
                       (range start_block (end_block + 1))),
     scan_world w (List.length (range start_block (end_block + 1)))
                (range_errors (node w) (rpc_attempts w)
                              (range start_block (end_block + 1)))).
Proof.
  unfold get_world_chain_batches, bind, ret.
  now rewrite scan_range_run.
Qed.

End Scan.

(** ** Ranges of blocks *)

Lemma range_cons (lo hi : Z) :
  lo < hi -> range lo hi = lo :: range (lo + 1) hi.
Proof.
  intros H. unfold range.
  replace (Z.to_nat (hi - lo)) with (S (Z.to_nat (hi - (lo + 1)))) by lia.
  cbn [seq map]. f_equal; [lia|].
  rewrite <- seq_shift, map_map. apply map_ext. intros i. lia.
Qed.

Lemma range_nil (lo hi : Z) : hi <= lo -> range lo hi = [].
Proof.
  intros H. unfold range. now replace (Z.to_nat (hi - lo)) with 0%nat by lia.
Qed.

Lemma range_length (lo hi : Z) :
  List.length (range lo hi) = Z.to_nat (hi - lo).
Proof. unfold range. now rewrite length_map, length_seq. Qed.

(** A block of a scanned range whose request fails at its turn has its
    record among the log records of the range. *)
Lemma range_errors_block (nd : Node) (count : nat) :
  forall lo attempt n f,
    lo <= n < lo + Z.of_nat count ->
    eth_getBlockByNumber nd (attempt + Z.to_nat (n - lo)) n = inl f ->
    In (ErrorProcessingBlock n (TransportError f))
       (range_errors nd attempt (range lo (lo + Z.of_nat count))).
Proof.
  induction count as [|count IH]; intros lo attempt n f Hn Hfail; [lia|].
  rewrite range_cons by lia. cbn [range_errors]. apply in_or_app.
  destruct (Z.eq_dec n lo) as [->|Hne].
  - left.
    replace (attempt + Z.to_nat (lo - lo))%nat with attempt in Hfail by lia.
    rewrite Hfail. now left.
  - right.
    replace (lo + Z.of_nat (S count)) with (lo + 1 + Z.of_nat count) by lia.
    apply IH; [lia|].
    now replace (S attempt + Z.to_nat (n - (lo + 1)))%nat
      with (attempt + Z.to_nat (n - lo))%nat by lia.
Qed.

(** ** The table and its JSON column *)

(** No transaction object can be written to the JSON column: a flush
    with an object pending raises at the first INSERT. *)
Lemma flush_pending (now : nat -> Z) (s : Submission)
      (pending : list Submission) (st : list BatchSubmission * nat) :
  flush now (s :: pending) st = Raise not_json_serializable.
Proof. destruct st. reflexivity. Qed.


Lemma for_each_session_add (bs : list Batch) :
  forall w,
    for_each bs
      (fun batch =>
         session_add (mkSubmission (batch_block_number batch)
                                   (batch_transaction_hash batch)
                                   (batch_raw_data batch))) w
    = (Ok tt,
       mkWorld (node w) (rpc_attempts w) (utcnow w) (clock_reads w) (db w)
               (session_new w ++ map submission_of bs) (log w)).
Proof.
  induction bs as [|b bs IH]; intros w.
  - simpl. unfold ret. rewrite app_nil_r. now destruct w.
  - cbn [for_each]. unfold bind. cbn [session_add]. rewrite IH. simpl.
    now rewrite <- app_assoc.
Qed.

(** ** One window of [fetch_batches] *)

Section Fetch.

Variable address : string.

(** A window never raises.  Its scan sends one request per block.  When
    no batch is found the commit has nothing to write and the loop moves
    to the block after the window; when a batch is found the commit
    raises at the first INSERT, the session is rolled back, the table
    stays as it was and the loop moves [BATCH_SIZE] blocks on. *)
Lemma fetch_window_run (current_block end_block : Z) (w : World) :
  session_new w = [] ->
  let batch_end := window_end current_block end_block in
  let blocks := range current_block (batch_end + 1) in
  let bs := window_batches address w current_block end_block in
  let lg := InfoFetching current_block batch_end
            :: range_errors (node w) (rpc_attempts w) blocks in
  fetch_window address current_block end_block w
  = match bs with
    | [] =>
        (Ok (batch_end + 1),
         mkWorld (node w) (rpc_attempts w + List.length blocks) (utcnow w)
                 (clock_reads w) (db w) []
                 (log w ++ lg ++ [InfoStored 0]))
    | _ :: _ =>
        (Ok (current_block + BATCH_SIZE),
         mkWorld (node w) (rpc_attempts w + List.length blocks) (utcnow w)
                 (clock_reads w) (db w) []
                 (log w ++ lg ++ [ErrorFetching not_json_serializable]))
    end.
Proof.
  intros Hclean batch_end blocks bs lg.
  subst bs. unfold window_batches. fold batch_end. fold blocks.
  unfold fetch_window, try_except.
  change (Z.min (current_block + BATCH_SIZE - 1) end_block) with batch_end.
  unfold bind, logger.
  rewrite get_world_chain_batches_run. unfold scan_world.
  cbn [node rpc_attempts utcnow clock_reads db session_new log].
  rewrite for_each_session_add. unfold session_commit, session_flush.
  cbn [node rpc_attempts utcnow clock_reads db session_new log].
  rewrite Hclean. cbn [app].
  fold blocks.
  destruct (range_batches address (node w) (rpc_attempts w) blocks)
    as [|b bs].
  - cbn [map flush List.length]. unfold ret.
    cbn [node rpc_attempts utcnow clock_reads db session_new log].
    subst lg. now rewrite <- !app_assoc.
  - cbn [map]. rewrite flush_pending. unfold session_rollback, ret.
    cbn [node rpc_attempts utcnow clock_reads db session_new log].
    subst lg. now rewrite <- !app_assoc.
Qed.

(** What a window leaves alone, and where it leaves the loop. *)
Lemma fetch_window_frame (current_block end_block : Z) (w : World) :
  session_new w = [] ->
  current_block <= end_block ->
  exists next w',
    fetch_window address current_block end_block w = (Ok next, w')
    /\ session_new w' = []
    /\ node w' = node w
    /\ utcnow w' = utcnow w
    /\ current_block < next
    /\ db w' = db w
    /\ clock_reads w' = clock_reads w.
Proof.
  intros Hclean Hle.
  rewrite (fetch_window_run current_block end_block w Hclean).
  destruct (window_batches address w current_block end_block);
    do 2 eexists; (split; [reflexivity|]); cbn;
    repeat split; unfold window_end, BATCH_SIZE; lia.
Qed.

(** ** The loop terminates *)

Lemma fetch_loop_total (fuel : nat) :
  forall current_block end_block w,
    session_new w = [] ->
    end_block - current_block + 1 <= Z.of_nat fuel ->
    exists w',
      fetch_loop address fuel current_block end_block w = Some (Ok tt, w')
      /\ session_new w' = []
      /\ node w' = node w
      /\ utcnow w' = utcnow w
      /\ db w' = db w
      /\ clock_reads w' = clock_reads w.
Proof.
  induction fuel as [|fuel IH]; intros cur e w Hclean Hfuel.
  - cbn [fetch_loop]. destruct (cur <=? e) eqn:E; [apply Z.leb_le in E; lia|].
    exists w. repeat split; try reflexivity; assumption.
  - cbn [fetch_loop]. destruct (cur <=? e) eqn:E.
    + apply Z.leb_le in E.
      destruct (fetch_window_frame cur e w Hclean E)
        as [next [w1 [Hrun [Hc1 [Hn1 [Hu1 [Hlt [Hdb1 Hr1]]]]]]]].
      rewrite Hrun.
      destruct (IH next e w1 Hc1)
        as [w' [Hloop [Hc' [Hn' [Hu' [Hdb' Hr']]]]]]; [lia|].
      exists w'. repeat split; try assumption; congruence.
    + exists w. repeat split; try reflexivity; assumption.
Qed.

(** Past the end of the range the loop does nothing, whatever the fuel. *)
Lemma fetch_loop_done (fuel : nat) (current_block end_block : Z) (w : World) :
  end_block < current_block ->
  fetch_loop address fuel current_block end_block w = Some (Ok tt, w).
Proof.
  intros H. destruct fuel; cbn [fetch_loop];
    (destruct (current_block <=? end_block) eqn:E;
     [apply Z.leb_le in E; lia|reflexivity]).
Qed.

End Fetch.

(** ** Where the scan pointer goes *)

(** C1, as the program has it.  A window always moves the scan pointer
    past its last block.  It sends one request per block of the window
    and logs every block whose request failed.  When the commit goes
    through, the table has gained exactly the batches the scan found, the
    log ends with the count of stored batches and the pointer is the
    block after the window; when the commit raises, the log ends with its
    error, the table is what it was and the pointer is [BATCH_SIZE]
    blocks further.  A run over a given range always returns. *)
Theorem fetch_window_always_advances
        (address : string) (current_block end_block : Z) (w : World) :
  session_new w = [] ->
  current_block <= end_block ->
  let batch_end := window_end current_block end_block in
  let blocks := range current_block (batch_end + 1) in
  let bs := window_batches address w current_block end_block in
  let scan_log := InfoFetching current_block batch_end
                  :: range_errors (node w) (rpc_attempts w) blocks in
  (exists next w',
      fetch_window address current_block end_block w = (Ok next, w')
      /\ batch_end < next
      /\ rpc_attempts w'
         = (rpc_attempts w + Z.to_nat (batch_end - current_block + 1))%nat
      /\ (forall n f,
             current_block <= n <= batch_end ->
             eth_getBlockByNumber
               (node w) (rpc_attempts w + Z.to_nat (n - current_block)) n
             = inl f ->
             In (ErrorProcessingBlock n (TransportError f)) (log w'))
      /\ ((flush (utcnow w) (map submission_of bs) (db w, clock_reads w)
           = Ok (db w', clock_reads w')
           /\ next = batch_end + 1
           /\ (exists new, db w' = db w ++ new /\ map row_batch new = bs)
           /\ log w' = log w ++ scan_log ++ [InfoStored (List.length bs)])
          \/ (exists e,
                 flush (utcnow w) (map submission_of bs) (db w, clock_reads w)
                 = Raise e
                 /\ next = current_block + BATCH_SIZE
                 /\ db w' = db w
                 /\ log w' = log w ++ scan_log ++ [ErrorFetching e])))
  /\ (exists w',
         fetch_batches address current_block (Some end_block) w
         = Some (Ok tt, w')).
Proof.
  intros Hclean Hle batch_end blocks bs scan_log. split.
  - pose proof (fetch_window_run address current_block end_block w Hclean) as Hrun.
    cbv zeta in Hrun. fold batch_end blocks bs scan_log in Hrun. rewrite Hrun.
    assert (Hlen : List.length blocks
                   = Z.to_nat (batch_end - current_block + 1)).
    { subst blocks. rewrite range_length. f_equal. lia. }
    assert (Hbe : current_block <= batch_end)
      by (subst batch_end; unfold window_end, BATCH_SIZE; lia).
    assert (Herr : forall n f,
               current_block <= n <= batch_end ->
               eth_getBlockByNumber
                 (node w) (rpc_attempts w + Z.to_nat (n - current_block)) n
               = inl f ->
               In (ErrorProcessingBlock n (TransportError f)) scan_log).
    { intros n f Hn Hfail. subst scan_log blocks. right.
      replace (batch_end + 1)
        with (current_block
              + Z.of_nat (Z.to_nat (batch_end + 1 - current_block))) by lia.
      apply range_errors_block; [lia|assumption]. }
    destruct bs as [|b bs'] eqn:Ebs.
    + do 2 eexists. split; [reflexivity|]. cbn [rpc_attempts db log clock_reads].
      split; [lia|]. split; [now rewrite Hlen|]. split.
      * intros n f Hn Hfail. apply in_or_app. right. apply in_or_app. left.
        now apply Herr.
      * left. split; [reflexivity|]. split; [reflexivity|].
        split; [|reflexivity]. exists []. now rewrite app_nil_r.
    + do 2 eexists. split; [reflexivity|]. cbn [rpc_attempts db log clock_reads].
      split; [subst batch_end; unfold window_end, BATCH_SIZE; lia|].
      split; [now rewrite Hlen|]. split.
      * intros n f Hn Hfail. apply in_or_app. right. apply in_or_app. left.
        now apply Herr.
      * right. exists not_json_serializable. cbn [map].
        rewrite flush_pending. auto.
  - unfold fetch_batches, ret.
    destruct (fetch_loop_total address
                (Z.to_nat (end_block - current_block + 1))
                current_block end_block w Hclean) as [w' [H _]]; [lia|].
    now exists w'.
Qed.

Lemma fetch_window_always_advances_witness :
  (exists next w',
      fetch_window rollup_address 100 104 (fresh_world sample_node)
      = (Ok next, w')
      /\ 104 < next
      /\ rpc_attempts w' = 5%nat
      /\ In (ErrorProcessingBlock 102 (TransportError Timeout)) (log w'))
  /\ (exists w',
         fetch_batches rollup_address 100 (Some 104) (fresh_world sample_node)
         = Some (Ok tt, w')).
Proof.
  destruct (fetch_window_always_advances
              rollup_address 100 104 (fresh_world sample_node)
              eq_refl ltac:(lia))
    as [[next [w' [Hrun [Hnext [Hcalls [Herr _]]]]]] Hloop].
  split; [|exact Hloop].
  exists next, w'. split; [exact Hrun|]. split; [exact Hnext|].
  split; [exact Hcalls|].
  apply (Herr 102 Timeout); [unfold window_end, BATCH_SIZE; lia|reflexivity].
Defined.

(** C1 fails as stated, in both of its parts.  On the sample chain the
    request for block 102 times out and the commit of the two batches of
    block 100 raises: the window 100..104 logs both errors, stores
    nothing, and moves the pointer to 200, past block 102, whose
    transaction the node would have served later, and past the whole
    window.  And where the only failure is the timed-out request for
    block 102, the commit goes through and the pointer moves to 105, past
    the block that was not scanned. *)
Lemma scan_pointer_passes_unscanned_blocks :
  (let w := fresh_world sample_node in
   let run := fetch_window rollup_address 100 104 w in
   map batch_transaction_hash (window_batches rollup_address w 100 104)
   = ["0xbb"; "0xaa"]
   /\ fst run = Ok 200
   /\ log (snd run)
      = [InfoFetching 100 104;
         ErrorProcessingBlock 102 (TransportError Timeout);
         ErrorFetching not_json_serializable]
   /\ db (snd run) = []
   /\ eth_getBlockByNumber sample_node 10 102 = inr (mkBlock [tx_late]))
  /\ (let run := fetch_window rollup_address 100 104 (fresh_world quiet_node) in
      fst run = Ok 105
      /\ log (snd run)
         = [InfoFetching 100 104;
            ErrorProcessingBlock 102 (TransportError Timeout);
            InfoStored 0]
      /\ eth_getBlockByNumber quiet_node 10 102 = inr (mkBlock [tx_late])).
Proof. split; cbv zeta; repeat split; vm_compute; reflexivity. Qed.

(** ** Idempotence on the transaction hash *)

Lemma NoDup_snoc {A} (xs : list A) (x : A) :
  NoDup xs -> ~ In x xs -> NoDup (xs ++ [x]).
Proof.
  intros Hnd Hx. induction Hnd as [|y ys Hy Hnd IH]; simpl.
  - constructor; [intros []|constructor].
  - constructor.
    + intros Hin. apply in_app_or in Hin. destruct Hin as [Hin|[->|[]]].
      * contradiction.
      * apply Hx. now left.
    + apply IH. intros Hin. apply Hx. now right.
Qed.

(** A window leaves the table as it found it. *)
Lemma fetch_window_keeps_table (address : string)
      (current_block end_block : Z) (w : World) :
  session_new w = [] ->
  db (snd (fetch_window address current_block end_block w)) = db w.
Proof.
  intros Hclean.
  rewrite (fetch_window_run address current_block end_block w Hclean).
  destruct (window_batches address w current_block end_block); reflexivity.
Qed.

(** A run returns or raises the error of its call for the latest block;
    either way the table is as it was and nothing is pending. *)
Lemma fetch_batches_keeps_table (address : string) (start_block : Z)
      (end_block : option Z) (w : World) :
  session_new w = [] ->
  exists r w',
    fetch_batches address start_block end_block w = Some (r, w')
    /\ session_new w' = []
    /\ db w' = db w.
Proof.
  intros Hclean. unfold fetch_batches. destruct end_block as [e|].
  - unfold ret.
    destruct (fetch_loop_total address (Z.to_nat (e - start_block + 1))
                start_block e w Hclean)
      as [w' [H [Hc [_ [_ [Hdb _]]]]]]; [lia|].
    now exists (Ok tt), w'.
  - unfold get_latest_block.
    destruct (eth_blockNumber (node w) (rpc_attempts w)) as [f|e];
      cbn [rpc_result].
    + exists (Raise (TransportError f)), (request_sent w). auto.
    + assert (Hc0 : session_new (request_sent w) = []) by exact Hclean.
      destruct (fetch_loop_total address (Z.to_nat (e - start_block + 1))
                  start_block e (request_sent w) Hc0)
        as [w' [H [Hc [_ [_ [Hdb _]]]]]]; [lia|].
      now exists (Ok tt), w'.
Qed.

(** C2.  On a node that answers the same way each time, starting with
    nothing pending and a table whose hashes are distinct: a window that
    brings a transaction hash the table already holds leaves the table
    unchanged; after any window the hashes are still distinct, so no
    duplicate row exists; and fetching a block range a second time
    returns and leaves the table exactly as the first fetch left it. *)
Theorem store_idempotent_on_hash
        (address : string) (start_block : Z) (end_block : option Z)
        (current_block window_limit : Z) (w : World) :
  stable (node w) ->
  session_new w = [] ->
  NoDup (hashes (db w)) ->
  ((exists b,
       In b (window_batches address w current_block window_limit)
       /\ In (batch_transaction_hash b) (hashes (db w))) ->
   db (snd (fetch_window address current_block window_limit w)) = db w)
  /\ NoDup (hashes (db (snd (fetch_window address current_block window_limit w))))
  /\ (exists r1 w1 r2 w2,
         fetch_batches address start_block end_block w = Some (r1, w1)
         /\ fetch_batches address start_block end_block w1 = Some (r2, w2)
         /\ db w2 = db w1
         /\ NoDup (hashes (db w1))).
Proof.
  intros Hst Hclean Hnd.
  pose proof (fetch_window_keeps_table address current_block window_limit
                                       w Hclean) as Hdb.
  split; [|split].
  - intros _. exact Hdb.
  - now rewrite Hdb.
  - destruct (fetch_batches_keeps_table address start_block end_block w Hclean)
      as [r1 [w1 [H1 [Hc1 Hdb1]]]].
    destruct (fetch_batches_keeps_table address start_block end_block w1 Hc1)
      as [r2 [w2 [H2 [_ Hdb2]]]].
    exists r1, w1, r2, w2. repeat split; try assumption. now rewrite Hdb1.
Qed.

Lemma steady_node_stable : stable steady_node.
Proof. split; intros; reflexivity. Qed.

Lemma store_idempotent_on_hash_witness :
  let w := world_with_table steady_node [row_late] in
  db (snd (fetch_window rollup_address 100 104 w)) = db w
  /\ exists r1 w1 r2 w2,
      fetch_batches rollup_address 100 (Some 104) w = Some (r1, w1)
      /\ fetch_batches rollup_address 100 (Some 104) w1 = Some (r2, w2)
      /\ db w2 = db w1
      /\ NoDup (hashes (db w1)).
Proof.
  intro w.
  destruct (store_idempotent_on_hash
              rollup_address 100 (Some 104) 100 104 w) as [Ha [_ Hc]].
  - exact steady_node_stable.
  - reflexivity.
  - vm_compute. constructor; [intros []|constructor].
  - split; [|exact Hc]. apply Ha.
    exists (batch_of 102 tx_late). split.
    + vm_compute. right. right. left. reflexivity.
    + vm_compute. left. reflexivity.
Defined.

(** ** The two predicates of the scan *)

Lemma lower_empty (s : string) : lower s = "" -> s = "".
Proof. destruct s; [reflexivity|discriminate]. Qed.

Lemma is_blob_type_iff (tx : Tx) :
  is_blob_type tx = true <-> tx_type tx = Some 3.
Proof.
  unfold is_blob_type. destruct (tx_type tx) as [t|].
  - rewrite Z.eqb_eq. split; [intros ->; reflexivity|congruence].
  - split; discriminate.
Qed.

(** The program's test agrees with the two predicates of the
    specification, for an address that is not the empty string. *)
Lemma scan_test_iff (address : string) (tx : Tx) :
  address <> "" ->
  (is_blob_type tx && to_world_chain address tx = true
   <-> spec_is_batch address tx).
Proof.
  intros Haddr. unfold spec_is_batch, to_world_chain.
  rewrite andb_true_iff, is_blob_type_iff.
  split; intros [Ht Hto]; (split; [assumption|]).
  - destruct (tx_to tx) as [a|]; [|discriminate].
    apply andb_true_iff in Hto. destruct Hto as [_ Hto].
    apply String.eqb_eq in Hto. now exists a.
  - destruct Hto as [a [-> Ha]].
    apply andb_true_iff. split; [|now apply String.eqb_eq].
    apply negb_true_iff, String.eqb_neq. intros ->.
    simpl in Ha. symmetry in Ha. apply lower_empty in Ha. contradiction.
Qed.

(** The batches of a scanned range with block number [n] are those of
    block [n], asked for at its turn. *)
Lemma range_batches_block (address : string) (nd : Node) (count : nat) :
  forall lo attempt b,
    In b (range_batches address nd attempt (range lo (lo + Z.of_nat count)))
    <-> exists n,
        lo <= n < lo + Z.of_nat count
        /\ In b (block_batches address nd (attempt + Z.to_nat (n - lo)) n).
Proof.
  induction count as [|count IH]; intros lo attempt b.
  - rewrite range_nil by lia. simpl. split; [intros []|].
    intros [n [Hn _]]. lia.
  - rewrite range_cons by lia. cbn [range_batches]. rewrite in_app_iff.
    replace (lo + Z.of_nat (S count)) with (lo + 1 + Z.of_nat count) by lia.
    rewrite IH. split.
    + intros [H|[n [Hn H]]].
      * exists lo. split; [lia|].
        now replace (attempt + Z.to_nat (lo - lo))%nat with attempt by lia.
      * exists n. split; [lia|].
        now replace (attempt + Z.to_nat (n - lo))%nat
          with (S attempt + Z.to_nat (n - (lo + 1)))%nat by lia.
    + intros [n [Hn H]]. destruct (Z.eq_dec n lo) as [->|Hne].
      * left.
        now replace (attempt + Z.to_nat (lo - lo))%nat with attempt in H by lia.
      * right. exists n. split; [lia|].
        now replace (attempt + Z.to_nat (n - lo))%nat
          with (S attempt + Z.to_nat (n - (lo + 1)))%nat in H by lia.
Qed.

Lemma block_batches_number (address : string) (nd : Node) (attempt : nat)
      (n : Z) (b : Batch) :
  In b (block_batches address nd attempt n) -> batch_block_number b = n.
Proof.
  unfold block_batches.
  destruct (eth_getBlockByNumber nd attempt n) as [f|blk]; [intros []|].
  intros H. apply in_map_iff in H. destruct H as [tx [<- _]]. reflexivity.
Qed.

(** In a scan of the range [start_block..end_block], take a block [n]
    of the range that the node served at its turn, and a transaction of
    that block: the scan returns the transaction's batch, under block
    number [n], exactly when the transaction passes both tests. *)
Lemma scan_range_membership
        (address : string) (start_block end_block n : Z) (w : World)
        (blk : Block) :
  address <> "" ->
  start_block <= n <= end_block ->
  eth_getBlockByNumber (node w)
                       (rpc_attempts w + Z.to_nat (n - start_block)) n
  = inr blk ->
  exists batches w',
    get_world_chain_batches address start_block (Some end_block) w
    = (Ok batches, w')
    /\ forall tx,
        In tx (transactions blk) ->
        (In (batch_of n tx) batches <-> spec_is_batch address tx).
Proof.
  intros Haddr Hn Hserved.
  rewrite get_world_chain_batches_run. do 2 eexists. split; [reflexivity|].
  intros tx Htx.
  replace (end_block + 1)
    with (start_block + Z.of_nat (Z.to_nat (end_block + 1 - start_block)))
    by lia.
  rewrite range_batches_block, <- scan_test_iff by assumption.
  split.
  - intros [m [Hm Hin]].
    pose proof (block_batches_number _ _ _ _ _ Hin) as Hnum.
    cbn in Hnum. subst m.
    unfold block_batches in Hin. rewrite Hserved in Hin.
    apply in_map_iff in Hin. destruct Hin as [tx' [Heq Hin]].
    inversion Heq; subst tx'.
    apply filter_In in Hin. tauto.
  - intros Htest. exists n. split; [lia|].
    unfold block_batches. rewrite Hserved.
    apply in_map. apply filter_In. now split.
Qed.

(** Every batch of a scan comes from a transaction that passes both
    tests. *)
Lemma range_batches_pass (address : string) (nd : Node) (blocks : list Z) :
  address <> "" ->
  forall attempt b,
    In b (range_batches address nd attempt blocks) ->
    spec_is_batch address (batch_raw_data b).
Proof.
  intros Haddr. induction blocks as [|n blocks IH]; intros attempt b Hin;
    cbn [range_batches] in Hin; [contradiction|].
  apply in_app_or in Hin. destruct Hin as [Hin|Hin]; [|eauto].
  unfold block_batches in Hin.
  destruct (eth_getBlockByNumber nd attempt n) as [f|blk]; [contradiction|].
  apply in_map_iff in Hin. destruct Hin as [tx [<- Hin]].
  apply filter_In in Hin. apply scan_test_iff; tauto.
Qed.

(** C3, as the program has it.  Take a window of [fetch_batches], a block
    [n] of the window that the node served at its turn, and any
    transaction of that block.  The scan hands the transaction's batch
    record to the store if and only if the transaction has type 3 and its
    destination equals the configured address up to letter case; a blob
    transaction sent elsewhere gives no record, and every record of the
    scan comes from a transaction that passes both tests.  Every row the
    window adds to the table is one of these records, and when the commit
    of the window raises, its error is logged and no record of the window
    is stored.  The address is assumed not to be the empty string. *)
Theorem scan_records_exactly_rollup_blobs
        (address : string) (current_block end_block n : Z) (w : World)
        (blk : Block) :
  address <> "" ->
  session_new w = [] ->
  current_block <= n <= window_end current_block end_block ->
  eth_getBlockByNumber (node w)
                       (rpc_attempts w + Z.to_nat (n - current_block)) n
  = inr blk ->
  exists batches w1 next w',
    get_world_chain_batches address current_block
                            (Some (window_end current_block end_block)) w
    = (Ok batches, w1)
    /\ fetch_window address current_block end_block w = (Ok next, w')
    /\ (forall tx,
           In tx (transactions blk) ->
           (In (batch_of n tx) batches <-> spec_is_batch address tx))
    /\ (forall tx a,
           In tx (transactions blk) ->
           tx_type tx = Some 3 ->
           tx_to tx = Some a ->
           lower a <> lower address ->
           ~ In (batch_of n tx) batches)
    /\ (forall b, In b batches -> spec_is_batch address (batch_raw_data b))
    /\ (forall r,
           In r (db w') ->
           In r (db w)
           \/ (In (row_batch r) batches /\ spec_is_batch address (raw_data r)))
    /\ (forall e,
           flush (utcnow w) (map submission_of batches) (db w, clock_reads w)
           = Raise e ->
           db w' = db w /\ In (ErrorFetching e) (log w')).
Proof.
  intros Haddr Hclean Hn Hserved.
  destruct (scan_range_membership address current_block
              (window_end current_block end_block) n w blk Haddr Hn Hserved)
    as [batches [w1 [Hscan Hiff]]].
  exists batches, w1.
  pose proof (fetch_window_run address current_block end_block w Hclean) as Hrun.
  cbv zeta in Hrun.
  assert (Hbs : batches = window_batches address w current_block end_block).
  { rewrite get_world_chain_batches_run in Hscan. now inversion Hscan. }
  rewrite <- Hbs in Hrun. rewrite Hrun.
  assert (Helse : forall tx a,
             In tx (transactions blk) ->
             tx_type tx = Some 3 ->
             tx_to tx = Some a ->
             lower a <> lower address ->
             ~ In (batch_of n tx) batches).
  { intros tx a Htx _ Hto Hne Hin. apply (Hiff tx Htx) in Hin.
    destruct Hin as [_ [a' [Hto' Heq]]]. congruence. }
  assert (Hall : forall b,
             In b batches -> spec_is_batch address (batch_raw_data b)).
  { intros b Hb. rewrite Hbs in Hb. unfold window_batches in Hb.
    exact (range_batches_pass address _ _ Haddr _ _ Hb). }
  destruct batches as [|b batches'].
  - do 2 eexists. split; [exact Hscan|]. split; [reflexivity|].
    split; [exact Hiff|]. split; [exact Helse|]. split; [exact Hall|].
    cbn [db log]. split.
    + intros r Hr. now left.
    + cbn [map flush]. discriminate.
  - do 2 eexists. split; [exact Hscan|]. split; [reflexivity|].
    split; [exact Hiff|]. split; [exact Helse|]. split; [exact Hall|].
    cbn [db log]. split.
    + intros r Hr. now left.
    + cbn [map]. rewrite flush_pending. intros e He. inversion He; subst e.
      split; [reflexivity|].
      apply in_or_app. right. apply in_or_app. right. now left.
Qed.

Lemma scan_records_exactly_rollup_blobs_witness :
  exists batches w1 next w',
    get_world_chain_batches rollup_address 100 (Some (window_end 100 104))
                            (fresh_world steady_node)
    = (Ok batches, w1)
    /\ fetch_window rollup_address 100 104 (fresh_world steady_node)
       = (Ok next, w')
    /\ (In (batch_of 100 tx_elsewhere) batches
        <-> spec_is_batch rollup_address tx_elsewhere)
    /\ (In (batch_of 100 tx_aa) batches
        <-> spec_is_batch rollup_address tx_aa)
    /\ ~ In (batch_of 100 tx_elsewhere) batches.
Proof.
  destruct (scan_records_exactly_rollup_blobs
              rollup_address 100 104 100 (fresh_world steady_node)
              (mkBlock [tx_bb; tx_elsewhere; tx_legacy; tx_aa]))
    as [batches [w1 [next [w' [H1 [H2 [H3 [H4 _]]]]]]]].
  - discriminate.
  - reflexivity.
  - unfold window_end, BATCH_SIZE. lia.
  - reflexivity.
  - exists batches, w1, next, w'. split; [exact H1|]. split; [exact H2|].
    split; [apply H3; simpl; tauto|]. split; [apply H3; simpl; tauto|].
    apply (H4 tx_elsewhere "0x1234"); [simpl; tauto|reflexivity|reflexivity|].
    discriminate.
Defined.

(** C3 fails as stated.  Block 100 of the sample chain is served, and
    its transaction with hash 0xbb has type 3 and is sent to the rollup
    address: the scan hands its batch record to the store, the commit of
    the window raises, and the table holds no record of it. *)
Lemma matching_transaction_not_stored :
  let w := fresh_world steady_node in
  let run := fetch_window rollup_address 100 104 w in
  eth_getBlockByNumber steady_node 0 100
  = inr (mkBlock [tx_bb; tx_elsewhere; tx_legacy; tx_aa])
  /\ spec_is_batch rollup_address tx_bb
  /\ In (batch_of 100 tx_bb) (window_batches rollup_address w 100 104)
  /\ fst run = Ok 200
  /\ In (ErrorFetching not_json_serializable) (log (snd run))
  /\ db (snd run) = [].
Proof.
  cbv zeta. split; [reflexivity|]. split.
  - split; [reflexivity|]. exists "0xabcd". split; reflexivity.
  - split; [vm_compute; left; reflexivity|].
    split; [vm_compute; reflexivity|].
    split; [vm_compute; right; left; reflexivity|].
    vm_compute; reflexivity.
Qed.

(** ** One request per call *)

(** C6, as the program has it.  A chain-reader call makes exactly one
    call into web3 and returns what that call gave: the answer, or the
    error web3 raised, never [RpcUnavailable].  A scan of a block range
    makes exactly one call per block.  The program retries nothing. *)
Theorem chain_reader_sends_one_request
        (address : string) (block_number start_block end_block : Z)
        (w : World) :
  (fst (get_latest_block w)
   = match eth_blockNumber (node w) (rpc_attempts w) with
     | inl f => Raise (TransportError f)
     | inr latest => Ok latest
     end
   /\ rpc_attempts (snd (get_latest_block w)) = S (rpc_attempts w)
   /\ fst (get_latest_block w) <> Raise RpcUnavailable)
  /\ (fst (get_block block_number w)
      = match eth_getBlockByNumber (node w) (rpc_attempts w) block_number with
        | inl f => Raise (TransportError f)
        | inr blk => Ok blk
        end
      /\ rpc_attempts (snd (get_block block_number w)) = S (rpc_attempts w)
      /\ fst (get_block block_number w) <> Raise RpcUnavailable)
  /\ rpc_attempts
       (snd (get_world_chain_batches address start_block (Some end_block) w))
     = (rpc_attempts w + Z.to_nat (end_block + 1 - start_block))%nat.
Proof.
  split; [|split].
  - unfold get_latest_block. cbn [fst snd request_sent rpc_attempts].
    destruct (eth_blockNumber (node w) (rpc_attempts w));
      cbn [rpc_result]; repeat split; discriminate.
  - unfold get_block. cbn [fst snd request_sent rpc_attempts].
    destruct (eth_getBlockByNumber (node w) (rpc_attempts w) block_number);
      cbn [rpc_result]; repeat split; discriminate.
  - rewrite get_world_chain_batches_run. cbn [snd scan_world rpc_attempts].
    now rewrite range_length.
Qed.

(** C6 fails as stated.  A node whose first answer is a timeout and whose
    second is the block: the program's [get_block] raises the timeout
    after one call, where a call retried up to three times returns the
    block.  A node that never answers: the program raises the error of
    its one call, where the retried call raises [RpcUnavailable]. *)
Lemma chain_reader_does_not_retry :
  (fst (get_block 7 (fresh_world flaky_node)) = Raise (TransportError Timeout)
   /\ rpc_attempts (snd (get_block 7 (fresh_world flaky_node))) = 1%nat
   /\ fst (spec_get_block 3 7 (fresh_world flaky_node)) = Ok (mkBlock [tx_bb]))
  /\ (fst (get_latest_block (fresh_world dead_node))
      = Raise (TransportError ConnectionDropped)
      /\ fst (spec_get_latest_block 3 (fresh_world dead_node))
         = Raise RpcUnavailable).
Proof. repeat split. Qed.

(** ** Errors stay with their block or record *)

Lemma for_each_app {S A} (body : A -> St S unit) (xs ys : list A) :
  forall s,
    for_each (xs ++ ys) body s
    = match for_each xs body s with
      | (Ok _, s1) => for_each ys body s1
      | (Raise e, s1) => (Raise e, s1)
      end.
Proof.
  induction xs as [|x xs IH]; intros s; [reflexivity|].
  cbn [app for_each]. unfold bind.
  destruct (body x s) as [[[]|e] s1]; [apply IH|reflexivity].
Qed.


(** ** The decoder does not look at the world *)

Lemma wi_ret {A} (a : A) : world_independent (ret a).
Proof. intros w1 w2. reflexivity. Qed.

Lemma wi_raise {A} (e : exn) : world_independent (@raise World A e).
Proof. intros w1 w2. reflexivity. Qed.

Lemma wi_logger (r : LogRecord) : world_independent (logger r).
Proof. intros w1 w2. reflexivity. Qed.

Lemma wi_bind {A B} (m : M A) (k : A -> M B) :
  world_independent m ->
  (forall a, world_independent (k a)) ->
  world_independent (bind m k).
Proof.
  intros Hm Hk w1 w2. unfold bind. specialize (Hm w1 w2).
  destruct (m w1) as [[a1|e1] w1'], (m w2) as [[a2|e2] w2'];
    cbn [fst] in Hm; inversion Hm; subst; [apply Hk|reflexivity].
Qed.

Lemma wi_try_except {A} (body : M A) (handler : exn -> M A) :
  world_independent body ->
  (forall e, world_independent (handler e)) ->
  world_independent (try_except body handler).
Proof.
  intros Hb Hh w1 w2. unfold try_except. specialize (Hb w1 w2).
  destruct (body w1) as [[a1|e1] w1'], (body w2) as [[a2|e2] w2'];
    cbn [fst] in Hb; inversion Hb; subst; [reflexivity|apply Hh].
Qed.

Lemma wi_for_acc {A B} (body : B -> A -> M B) (xs : list A) :
  (forall acc x, world_independent (body acc x)) ->
  forall acc, world_independent (for_acc xs body acc).
Proof.
  intros Hbody. induction xs as [|x xs IH]; intros acc; cbn [for_acc].
  - apply wi_ret.
  - apply wi_bind; [apply Hbody|exact IH].
Qed.

Lemma wi_getitem {A} (batch_data : BatchData) (field : Batch -> A) :
  world_independent (getitem batch_data field).
Proof. destruct batch_data; [apply wi_ret|apply wi_raise]. Qed.

Create HintDb wi.
#[local] Hint Resolve wi_ret wi_raise wi_logger wi_getitem : wi.
#[local] Hint Extern 2 (world_independent (bind _ _)) =>
  apply wi_bind; [|intro] : wi.
#[local] Hint Extern 2 (world_independent (try_except _ _)) =>
  apply wi_try_except; [|intro] : wi.
#[local] Hint Extern 2 (world_independent (for_acc _ _ _)) =>
  apply wi_for_acc; intros : wi.

Section DecoderProperties.

Variable rlp_decode : bytes -> result RlpItem.

Lemma wi_decode_rlp (data : bytes) :
  world_independent (decode_rlp rlp_decode data).
Proof.
  unfold decode_rlp. apply wi_try_except.
  - intros w1 w2. reflexivity.
  - intro e. auto with wi.
Qed.

Lemma wi_hex_items (decoded : RlpItem) : world_independent (hex_items decoded).
Proof.
  destruct decoded as [b|items]; cbn [hex_items]; [apply wi_ret|].
  apply wi_for_acc. intros acc [b|nested]; auto with wi.
Qed.

Lemma wi_decode_blob (blob_content : bytes) :
  world_independent (_decode_blob rlp_decode blob_content).
Proof.
  unfold _decode_blob.
  pose proof wi_decode_rlp. pose proof wi_hex_items. auto 6 with wi.
Qed.

Lemma wi_blob_loop (fetch : bytes -> bytes) (hashes : list bytes)
      (blobs : list DecodedBlob) :
  world_independent (blob_loop rlp_decode fetch hashes blobs).
Proof.
  unfold blob_loop. apply wi_for_acc. intros acc blob_hash. cbv zeta.
  destruct (fetch blob_hash); [auto with wi|].
  apply wi_bind; [apply wi_decode_blob|intro; auto with wi].
Qed.

Lemma wi_decode_batch_with (fetch : bytes -> bytes) (batch_data : BatchData) :
  world_independent (decode_batch_with rlp_decode fetch batch_data).
Proof.
  unfold decode_batch_with. apply wi_try_except; [|intro; auto with wi].
  apply wi_bind; [auto with wi|]. intro raw.
  destruct (blobVersionedHashes raw) as [[|h hashes]|]; [auto with wi| |auto with wi].
  apply wi_bind; [auto with wi|]. intro n.
  apply wi_bind; [auto with wi|]. intro th.
  apply wi_bind; [apply wi_blob_loop|intro; auto with wi].
Qed.

(** C5.  The outcome of [decode_batch], a decoded batch or the exception
    raised, is the same in any two worlds: the clock, the log, the node
    and the table have no part in it; it is a function of the input
    alone.  So a second call, made in the world the first one left,
    gives the outcome of the first; and this holds whatever method
    supplies the blob content. *)
Theorem decode_is_deterministic
        (fetch : bytes -> bytes) (batch_data : BatchData) (w1 w2 : World) :
  fst (decode_batch rlp_decode batch_data w1)
  = fst (decode_batch rlp_decode batch_data w2)
  /\ fst (decode_batch rlp_decode batch_data
                       (snd (decode_batch rlp_decode batch_data w1)))
     = fst (decode_batch rlp_decode batch_data w1)
  /\ fst (decode_batch_with rlp_decode fetch batch_data w1)
     = fst (decode_batch_with rlp_decode fetch batch_data w2).
Proof.
  repeat split; apply wi_decode_batch_with.
Qed.

End DecoderProperties.

(** ** What [decode_batch] returns *)

Section DecodeBatch.

Variable rlp_decode : bytes -> result RlpItem.

(** With the placeholder for the blob content, the loop over the hashes
    leaves its list as it is. *)
Lemma placeholder_loop (hashes : list bytes) :
  forall (blobs : list DecodedBlob) (w : World),
    blob_loop rlp_decode _fetch_blob_content hashes blobs w = (Ok blobs, w).
Proof.
  unfold blob_loop.
  induction hashes as [|h hashes IH]; intros blobs w; [reflexivity|].
  cbn [for_acc]. unfold bind. cbn [_fetch_blob_content]. unfold ret at 1.
  apply IH.
Qed.

Lemma decode_batch_run (batch_data : BatchData) (w : World) :
  decode_batch rlp_decode batch_data w
  = match batch_data with
    | RowBatch _ => (Raise not_subscriptable,
                     snd (logger (ErrorBatchDecoding not_subscriptable) w))
    | DictBatch d =>
        match blobVersionedHashes (batch_raw_data d) with
        | Some (_ :: _) =>
            (Ok (mkDecodedBatch (batch_block_number d)
                                (batch_transaction_hash d) []), w)
        | _ => (Raise no_blob_data,
                snd (logger (ErrorBatchDecoding no_blob_data) w))
        end
    end.
Proof.
  unfold decode_batch, decode_batch_with, try_except.
  destruct batch_data as [d|r].
  - unfold bind at 1. cbn [getitem]. unfold ret at 1.
    destruct (blobVersionedHashes (batch_raw_data d)) as [[|h hashes]|];
      try reflexivity.
    unfold bind. cbn [getitem]. unfold ret at 1 2.
    now rewrite placeholder_loop.
  - reflexivity.
Qed.

End DecodeBatch.

(** C9.  Whenever [decode_batch] returns a decoded batch, its [blobs]
    list is empty: the input was a dictionary with at least one versioned
    hash, the batch carries its block number and transaction hash, the
    content fetched for each hash was the empty byte string and was
    skipped, and nothing was logged.  No blob is decoded on the way:
    with any other [rlp.decode] the call does the same. *)
Theorem decode_batch_blobs_empty
        (rlp_decode : bytes -> result RlpItem)
        (batch_data : BatchData) (w w' : World) (decoded : DecodedBatch) :
  decode_batch rlp_decode batch_data w = (Ok decoded, w') ->
  blobs decoded = []
  /\ (forall blob_hash, _fetch_blob_content blob_hash = [])
  /\ w' = w
  /\ (forall other_rlp_decode,
         decode_batch other_rlp_decode batch_data w = (Ok decoded, w'))
  /\ exists d h hashes,
      batch_data = DictBatch d
      /\ blobVersionedHashes (batch_raw_data d) = Some (h :: hashes)
      /\ decoded = mkDecodedBatch (batch_block_number d)
                                  (batch_transaction_hash d) [].
Proof.
  rewrite decode_batch_run. intros H.
  destruct batch_data as [d|r]; [|discriminate].
  destruct (blobVersionedHashes (batch_raw_data d)) as [[|h hashes]|] eqn:E;
    try discriminate.
  inversion H; subst. repeat split.
  - intros other. now rewrite decode_batch_run, E.
  - now exists d, h, hashes.
Qed.

Lemma decode_batch_blobs_empty_witness :
  decode_batch rlp_decode_strict (DictBatch (batch_of 100 tx_aa))
               (fresh_world steady_node)
  = (Ok (mkDecodedBatch 100 "0xaa" []), fresh_world steady_node)
  /\ blobs (mkDecodedBatch 100 "0xaa" []) = [].
Proof.
  split; [reflexivity|].
  exact (proj1 (decode_batch_blobs_empty
                  rlp_decode_strict (DictBatch (batch_of 100 tx_aa))
                  (fresh_world steady_node) (fresh_world steady_node)
                  (mkDecodedBatch 100 "0xaa" []) eq_refl)).
Defined.

(** C10.  [extract_l2_transactions] returns the empty list for every
    decoded batch, whatever its blobs. *)
Theorem extract_l2_transactions_empty (decoded_batch : DecodedBatch) :
  extract_l2_transactions decoded_batch = [].
Proof.
  unfold extract_l2_transactions.
  generalize (@nil L2Tx) as transactions.
  induction (blobs decoded_batch) as [|blob rest IH]; intros transactions.
  - reflexivity.
  - cbn [fold_left]. apply IH.
Qed.

(** ** Failure or a complete batch *)

Section DecodeFailure.

Variable rlp_decode : bytes -> result RlpItem.
Variable fetch : bytes -> bytes.

(** A blob that [rlp.decode] rejects makes [_decode_blob] raise the same
    exception, after two log records. *)
Lemma decode_blob_malformed (blob_content : bytes) (e : exn) (w : World) :
  rlp_decode blob_content = Raise e ->
  _decode_blob rlp_decode blob_content w
  = (Raise e,
     scan_world w 0 [ErrorRlpDecoding e; ErrorBlobDecoding e]).
Proof.
  intros H.
  unfold _decode_blob, try_except, bind, decode_rlp, try_except.
  rewrite H. unfold bind, logger, raise, scan_world.
  cbn [node rpc_attempts utcnow clock_reads db session_new log].
  now rewrite Nat.add_0_r, <- app_assoc.
Qed.

Local Abbreviation blob_loop := (blob_loop rlp_decode fetch).

(** When the loop returns, it has appended the decoded form of every
    blob that has content, in the order of the hashes. *)
Lemma blob_loop_complete (hashes : list bytes) :
  forall acc w blobs w',
    blob_loop hashes acc w = (Ok blobs, w') ->
    exists new,
      blobs = acc ++ new
      /\ Forall2
           (fun content blob =>
              forall w0, fst (_decode_blob rlp_decode content w0) = Ok blob)
           (filter has_content (map fetch hashes)) new.
Proof.
  unfold blob_loop.
  induction hashes as [|h hashes IH]; intros acc w blobs w' H.
  - inversion H; subst. exists []. rewrite app_nil_r. split; [reflexivity|constructor].
  - cbn [for_acc map filter] in *. unfold bind at 1 in H. cbv zeta in H.
    destruct (fetch h) as [|c0 content] eqn:Ec.
    + unfold ret at 1 in H. cbn [has_content]. eauto.
    + unfold bind at 1 in H.
      destruct (_decode_blob rlp_decode (c0 :: content) w) as [[blob|e] w1] eqn:Eb;
        [|discriminate].
      unfold ret at 1 in H. apply IH in H. destruct H as [new [-> Hall]].
      cbn [has_content]. exists (blob :: new).
      split; [now rewrite <- app_assoc|].
      constructor; [|assumption].
      intros w0. rewrite (wi_decode_blob rlp_decode (c0 :: content) w0 w).
      now rewrite Eb.
Qed.

(** One malformed blob among the hashes and the loop raises. *)
Lemma blob_loop_malformed (hashes : list bytes) (h : bytes) (e : exn) :
  In h hashes ->
  has_content (fetch h) = true ->
  rlp_decode (fetch h) = Raise e ->
  forall acc w, exists e' w', blob_loop hashes acc w = (Raise e', w').
Proof.
  unfold blob_loop. intros Hin Hc Hbad.
  induction hashes as [|h0 hashes IH]; [contradiction|]. intros acc w.
  cbn [for_acc]. unfold bind at 1. cbv zeta.
  destruct (fetch h0) as [|c0 content] eqn:Ec.
  - unfold ret at 1. destruct Hin as [->|Hin]; [|now apply IH].
    rewrite Ec in Hc. discriminate.
  - unfold bind at 1.
    destruct (_decode_blob rlp_decode (c0 :: content) w) as [[blob|e0] w1] eqn:Eb;
      [|eauto].
    unfold ret at 1. destruct Hin as [->|Hin]; [|now apply IH].
    rewrite Ec in Hbad. rewrite (decode_blob_malformed _ _ _ Hbad) in Eb.
    discriminate.
Qed.

(** [decode_batch] on a dictionary, in terms of its loop. *)
Lemma decode_batch_with_dict (d : Batch) (w : World) :
  decode_batch_with rlp_decode fetch (DictBatch d) w
  = match blobVersionedHashes (batch_raw_data d) with
    | Some (h :: hashes) =>
        match blob_loop (h :: hashes) [] w with
        | (Ok blobs, w') =>
            (Ok (mkDecodedBatch (batch_block_number d)
                                (batch_transaction_hash d) blobs), w')
        | (Raise e, w') => (Raise e, snd (logger (ErrorBatchDecoding e) w'))
        end
    | _ => (Raise no_blob_data, snd (logger (ErrorBatchDecoding no_blob_data) w))
    end.
Proof.
  unfold decode_batch_with, try_except.
  unfold bind at 1. cbn [getitem]. unfold ret at 1.
  destruct (blobVersionedHashes (batch_raw_data d)) as [[|h hashes]|];
    try reflexivity.
  unfold bind at 1. cbn [getitem]. unfold ret at 1.
  unfold bind at 1. unfold ret at 1.
  unfold bind at 1.
  destruct (blob_loop (h :: hashes) [] w) as [[blobs|e] w']; reflexivity.
Qed.

(** Hashes without content are passed over: nothing is appended and
    nothing is logged. *)
Lemma blob_loop_skips (hashes : list bytes) :
  (forall h, In h hashes -> has_content (fetch h) = false) ->
  forall acc w, blob_loop hashes acc w = (Ok acc, w).
Proof.
  unfold blob_loop.
  induction hashes as [|h hashes IH]; intros Hempty acc w; [reflexivity|].
  cbn [for_acc]. unfold bind at 1. cbv zeta.
  pose proof (Hempty h (or_introl eq_refl)) as Hh.
  destruct (fetch h) as [|c0 content]; [|discriminate].
  unfold ret at 1. apply IH. intros h' Hin. apply Hempty. now right.
Qed.

(** C4, as the program has it.  [decode_batch] raises when the record
    lists no versioned hashes (none, or an empty list), [_decode_blob]
    raises when [rlp.decode] rejects the blob's bytes, and one such blob
    among the record's hashes makes [decode_batch] raise.  A hash for
    which no bytes are obtained is passed over without an error: when no
    hash has content the batch is returned with no blob.  A returned
    batch carries the record's block number and transaction hash and one
    decoded blob for every hash that has content, in order.  This holds
    for every method supplying the blob content, the program's
    [_fetch_blob_content] among them. *)
Theorem decode_fails_or_is_complete :
  (forall d w,
      blobVersionedHashes (batch_raw_data d) = None
      \/ blobVersionedHashes (batch_raw_data d) = Some [] ->
      fst (decode_batch_with rlp_decode fetch (DictBatch d) w)
      = Raise no_blob_data
      /\ fst (decode_batch rlp_decode (DictBatch d) w) = Raise no_blob_data)
  /\ (forall blob_content e w,
         rlp_decode blob_content = Raise e ->
         fst (_decode_blob rlp_decode blob_content w) = Raise e)
  /\ (forall d hashes h e w,
         blobVersionedHashes (batch_raw_data d) = Some hashes ->
         In h hashes ->
         has_content (fetch h) = true ->
         rlp_decode (fetch h) = Raise e ->
         exists e',
           fst (decode_batch_with rlp_decode fetch (DictBatch d) w) = Raise e')
  /\ (forall batch_data w decoded,
         fst (decode_batch_with rlp_decode fetch batch_data w) = Ok decoded ->
         exists d hashes,
           batch_data = DictBatch d
           /\ blobVersionedHashes (batch_raw_data d) = Some hashes
           /\ hashes <> []
           /\ decoded_block_number decoded = batch_block_number d
           /\ decoded_transaction_hash decoded = batch_transaction_hash d
           /\ Forall2
                (fun content blob =>
                   forall w0,
                     fst (_decode_blob rlp_decode content w0) = Ok blob)
                (filter has_content (map fetch hashes)) (blobs decoded))
  /\ (forall d hashes w,
         blobVersionedHashes (batch_raw_data d) = Some hashes ->
         hashes <> [] ->
         (forall h, In h hashes -> has_content (fetch h) = false) ->
         decode_batch_with rlp_decode fetch (DictBatch d) w
         = (Ok (mkDecodedBatch (batch_block_number d)
                               (batch_transaction_hash d) []), w)).
Proof.
  split; [|split; [|split; [|split]]].
  - intros d w H. rewrite decode_batch_run, decode_batch_with_dict.
    destruct H as [-> | ->]; split; reflexivity.
  - intros c e w H. now rewrite (decode_blob_malformed c e w H).
  - intros d hashes h e w Hh Hin Hc Hbad. rewrite decode_batch_with_dict, Hh.
    destruct hashes as [|h0 hashes]; [contradiction|].
    destruct (blob_loop_malformed (h0 :: hashes) h e Hin Hc Hbad [] w)
      as [e' [w' Hloop]].
    rewrite Hloop. now exists e'.
  - intros batch_data w decoded H.
    destruct batch_data as [d|r]; [|discriminate].
    rewrite decode_batch_with_dict in H.
    destruct (blobVersionedHashes (batch_raw_data d)) as [[|h hashes]|] eqn:Eh;
      try discriminate.
    destruct (blob_loop (h :: hashes) [] w) as [[blobs|e] w'] eqn:Eloop;
      [|discriminate].
    cbn [fst] in H. inversion H; subst decoded. cbn.
    apply blob_loop_complete in Eloop. destruct Eloop as [new [-> Hall]].
    exists d, (h :: hashes). repeat split; try assumption. discriminate.
  - intros d hashes w Hh Hne Hempty. rewrite decode_batch_with_dict, Hh.
    destruct hashes as [|h hashes]; [contradiction|].
    now rewrite (blob_loop_skips (h :: hashes) Hempty [] w).
Qed.

End DecodeFailure.

Lemma decode_fails_or_is_complete_witness :
  let w := fresh_world steady_node in
  fst (decode_batch rlp_decode_strict (DictBatch (batch_of 100 tx_legacy)) w)
  = Raise no_blob_data
  /\ fst (_decode_blob rlp_decode_strict truncated_blob w)
     = Raise (DecodingError "RLP string too short")
  /\ (exists e',
         fst (decode_batch_with rlp_decode_strict first_blob_truncated
                                (DictBatch (batch_of 100 tx_aa)) w)
         = Raise e')
  /\ decode_batch_with rlp_decode_strict first_blob_truncated
                       (DictBatch (batch_of 102 tx_late)) w
     = (Ok (mkDecodedBatch 102 "0xee" []), w).
Proof.
  intro w.
  destruct (decode_fails_or_is_complete
              rlp_decode_strict first_blob_truncated)
    as [Hnone [Hblob [Hbatch [_ Hskip]]]].
  split; [|split; [|split]].
  - apply Hnone. left. reflexivity.
  - apply Hblob. reflexivity.
  - apply (Hbatch (batch_of 100 tx_aa) [[Byte.x01]; [Byte.x02]] [Byte.x01]
                  (DecodingError "RLP string too short") w).
    + reflexivity.
    + left. reflexivity.
    + reflexivity.
    + reflexivity.
  - apply (Hskip (batch_of 102 tx_late) [[Byte.x04]] w).
    + reflexivity.
    + discriminate.
    + intros h [<-|[]]. reflexivity.
Defined.

(** C4 fails as stated.  The record of the transaction with hash 0xaa
    lists two versioned hashes, and [_fetch_blob_content] obtains no
    bytes for either: no blob bytes are present, yet [decode_batch]
    raises nothing and returns a batch without blobs.  And were the
    bytes of the first blob alone obtained, the returned batch would
    hold one blob for the two hashes of the record. *)
Lemma decode_returns_without_blob_bytes :
  let w := fresh_world steady_node in
  let record := DictBatch (batch_of 100 tx_aa) in
  blobVersionedHashes tx_aa = Some [[Byte.x01]; [Byte.x02]]
  /\ map _fetch_blob_content [[Byte.x01]; [Byte.x02]] = [[]; []]
  /\ decode_batch rlp_decode_strict record w
     = (Ok (mkDecodedBatch 100 "0xaa" []), w)
  /\ map first_blob_only [[Byte.x01]; [Byte.x02]] = [cat_dog_blob; []]
  /\ decode_batch_with rlp_decode_strict first_blob_only record w
     = (Ok (mkDecodedBatch 100 "0xaa"
              [mkDecodedBlob (to_hex cat_dog_blob)
                             ["0x636174"; "0x646f67"] 9]), w).
Proof. cbv zeta. repeat split. Qed.

(** ** The passes go on after an error *)

Section DecodeLoop.

Variable rlp_decode : bytes -> result RlpItem.
Variable Metrics : Type.
Variable calculate_batch_metrics : DecodedBatch -> M Metrics.
Variable len_str_decoded : DecodedBatch -> Z.
Variable len_str_reconstructed : ReconstructedBatch -> Z.
Variable _matches_criteria : L2Tx -> bool.

Local Abbreviation process :=
  (process_batch rlp_decode Metrics calculate_batch_metrics len_str_decoded
                 len_str_reconstructed _matches_criteria).

Local Abbreviation loop :=
  (decode_loop rlp_decode Metrics calculate_batch_metrics len_str_decoded
               len_str_reconstructed _matches_criteria).

(** [main] hands [decode_batch] the row object itself, so the decoding of
    every record raises at the first subscript; the loop logs it and goes
    on to the next record. *)
Lemma process_batch_run (batch : BatchSubmission) (s : MainState Metrics) :
  process batch s
  = (Ok tt,
     mkMain (scan_world (world s) 0 (record_trace batch))
            (metrics_data s) (original_sizes s) (modified_sizes s)).
Proof.
  unfold process_batch, try_except, bind, in_world.
  rewrite decode_batch_run. unfold logger, scan_world, record_trace.
  cbn [snd fst world node rpc_attempts utcnow clock_reads db session_new log].
  now rewrite Nat.add_0_r, <- app_assoc.
Qed.

Lemma decode_loop_run (batches : list BatchSubmission) :
  forall s,
    loop batches s
    = (Ok tt,
       mkMain (scan_world (world s) 0 (flat_map record_trace batches))
              (metrics_data s) (original_sizes s) (modified_sizes s)).
Proof.
  unfold decode_loop.
  induction batches as [|batch batches IH]; intros s.
  - cbn [for_each flat_map]. unfold ret. rewrite scan_world_0. now destruct s.
  - cbn [for_each flat_map]. unfold bind.
    pose proof (process_batch_run batch s) as H.
    rewrite H, IH. cbn [world metrics_data original_sizes modified_sizes].
    now rewrite scan_world_scan_world.
Qed.

(** Whatever happens to a record, the loop body returns. *)
Lemma process_batch_returns (batch : BatchSubmission) (s : MainState Metrics) :
  exists s', process batch s = (Ok tt, s').
Proof.
  unfold process_batch, try_except.
  match goal with |- context [match ?body s with _ => _ end] =>
    destruct (body s) as [[[]|e] s1]
  end.
  - now exists s1.
  - unfold in_world, logger. eexists. reflexivity.
Qed.

Lemma decode_loop_returns (batches : list BatchSubmission) :
  forall s, exists s', loop batches s = (Ok tt, s').
Proof.
  induction batches as [|batch batches IH]; intros s.
  - now exists s.
  - unfold decode_loop. cbn [for_each]. unfold bind.
    destruct (process_batch_returns batch s) as [s1 H1].
    rewrite H1. apply IH.
Qed.

(** C8.  A scan of a block range always returns: every block of the
    range is requested at its turn, whatever happened to the blocks
    before it; a block whose request failed is logged, and every
    transaction of a served block that passes both tests has its batch in
    the result.  The decode loop of [main] always returns as well: in a
    list of records, each record is processed in the state the records
    before it left, whether they were decoded or failed, and the records
    after it are processed in turn; the log shows the attempt on every
    record, in order. *)
Theorem errors_do_not_stop_the_pass
        (address : string) (start_block end_block : Z) (w : World)
        (before : list BatchSubmission) (batch : BatchSubmission)
        (after : list BatchSubmission) (s : MainState Metrics) :
  (exists batches w',
      get_world_chain_batches address start_block (Some end_block) w
      = (Ok batches, w')
      /\ rpc_attempts w'
         = (rpc_attempts w + Z.to_nat (end_block + 1 - start_block))%nat
      /\ (forall n f,
             start_block <= n <= end_block ->
             eth_getBlockByNumber
               (node w) (rpc_attempts w + Z.to_nat (n - start_block)) n
             = inl f ->
             In (ErrorProcessingBlock n (TransportError f)) (log w'))
      /\ (forall n blk tx,
             start_block <= n <= end_block ->
             eth_getBlockByNumber
               (node w) (rpc_attempts w + Z.to_nat (n - start_block)) n
             = inr blk ->
             In tx (transactions blk) ->
             is_blob_type tx && to_world_chain address tx = true ->
             In (batch_of n tx) batches))
  /\ (exists s1 s2 s3,
         loop before s = (Ok tt, s1)
         /\ process batch s1 = (Ok tt, s2)
         /\ loop after s2 = (Ok tt, s3)
         /\ loop (before ++ batch :: after) s = (Ok tt, s3)
         /\ log (world s3)
            = log (world s) ++ flat_map record_trace (before ++ batch :: after)).
Proof.
  split.
  - rewrite get_world_chain_batches_run. do 2 eexists.
    split; [reflexivity|]. cbn [scan_world rpc_attempts log].
    split; [now rewrite range_length|].
    split.
    + intros n f Hn Hfail. apply in_or_app. right.
      replace (end_block + 1)
        with (start_block + Z.of_nat (Z.to_nat (end_block + 1 - start_block)))
        by lia.
      apply range_errors_block; [lia|assumption].
    + intros n blk tx Hn Hserved Htx Htest.
      replace (end_block + 1)
        with (start_block + Z.of_nat (Z.to_nat (end_block + 1 - start_block)))
        by lia.
      apply range_batches_block. exists n. split; [lia|].
      unfold block_batches. rewrite Hserved.
      apply in_map, filter_In. now split.
  - destruct (decode_loop_returns before s) as [s1 H1].
    destruct (process_batch_returns batch s1) as [s2 H2].
    destruct (decode_loop_returns after s2) as [s3 H3].
    exists s1, s2, s3.
    assert (Hall : loop (before ++ batch :: after) s = (Ok tt, s3)).
    { unfold decode_loop in *. rewrite for_each_app, H1.
      cbn [for_each]. unfold bind. now rewrite H2. }
    repeat split; try assumption.
    rewrite decode_loop_run in Hall. inversion Hall. reflexivity.
Qed.

End DecodeLoop.

(** ** The order of the pending records *)





Lemma errors_do_not_stop_the_pass_witness :
  exists batches w',
    get_world_chain_batches rollup_address 100 (Some 104)
                            (fresh_world sample_node)
    = (Ok batches, w')
    /\ In (ErrorProcessingBlock 102 (TransportError Timeout)) (log w')
    /\ In (batch_of 100 tx_aa) batches.
Proof.
  destruct (errors_do_not_stop_the_pass
              rlp_decode_strict unit (fun _ => ret tt) (fun _ => 0)
              (fun _ => 0) (fun _ => true)
              rollup_address 100 104 (fresh_world sample_node)
              [] sample_row [sample_row]
              (mkMain (fresh_world sample_node) [] [] []))
    as [[batches [w' [Hrun [_ [Hfailed Hserved]]]]] _].
  exists batches, w'. split; [exact Hrun|]. split.
  - apply (Hfailed 102 Timeout); [lia|reflexivity].
  - apply (Hserved 100 (mkBlock [tx_bb; tx_elsewhere; tx_legacy; tx_aa]) tx_aa);
      [lia|reflexivity|simpl; tauto|reflexivity].
Defined.

(** * Further properties of the program *)

(** ** What a scan returns *)

Lemma StronglySorted_app {A} (R : A -> A -> Prop) (xs ys : list A) :
  StronglySorted R xs ->
  StronglySorted R ys ->
  (forall x y, In x xs -> In y ys -> R x y) ->
  StronglySorted R (xs ++ ys).
Proof.
  intros Hx Hy Hxy. induction Hx as [|x xs Hx IH Hall]; cbn [app]; [assumption|].
  constructor.
  - apply IH. intros a b Ha Hb. apply Hxy; [now right|assumption].
  - apply Forall_app. split; [assumption|].
    apply Forall_forall. intros y Hin. apply Hxy; [now left|assumption].
Qed.

Lemma block_batches_scanned (address : string) (nd : Node) (attempt : nat)
      (n : Z) :
  Forall (fun b => batch_block_number b = n /\ scanned_from address n n b)
         (block_batches address nd attempt n).
Proof.
  unfold block_batches.
  destruct (eth_getBlockByNumber nd attempt n) as [f|blk]; [constructor|].
  apply Forall_forall. intros b Hin. apply in_map_iff in Hin.
  destruct Hin as [tx [<- Hin]]. apply filter_In in Hin.
  destruct Hin as [_ Htest]. apply andb_true_iff in Htest.
  unfold scanned_from, batch_of. cbn. repeat split; try lia; tauto.
Qed.

Lemma range_batches_scanned (address : string) (nd : Node) (count : nat) :
  forall lo attempt,
    StronglySorted block_order
      (range_batches address nd attempt (range lo (lo + Z.of_nat count)))
    /\ Forall (scanned_from address lo (lo + Z.of_nat count - 1))
              (range_batches address nd attempt (range lo (lo + Z.of_nat count))).
Proof.
  induction count as [|count IH]; intros lo attempt.
  - rewrite range_nil by lia. split; constructor.
  - rewrite range_cons by lia. cbn [range_batches].
    replace (lo + Z.of_nat (S count)) with (lo + 1 + Z.of_nat count) by lia.
    destruct (IH (lo + 1) (S attempt)) as [Hsorted Hall].
    pose proof (block_batches_scanned address nd attempt lo) as Hblock.
    rewrite Forall_forall in Hall, Hblock. split.
    + apply StronglySorted_app; [|assumption|].
      * induction (block_batches address nd attempt lo) as [|b bs IHb];
          constructor.
        -- apply IHb. intros x Hx. apply Hblock. now right.
        -- apply Forall_forall. intros x Hx. unfold block_order.
           destruct (Hblock b (or_introl eq_refl)) as [-> _].
           destruct (Hblock x (or_intror Hx)) as [-> _]. lia.
      * intros x y Hx Hy. unfold block_order.
        destruct (Hblock x Hx) as [-> _].
        destruct (Hall y Hy) as [Hy' _]. lia.
    + apply Forall_app. split; apply Forall_forall; intros b Hb.
      * destruct (Hblock b Hb) as [_ [Hn Hrest]]. split; [lia|exact Hrest].
      * destruct (Hall b Hb) as [Hn Hrest]. split; [lia|exact Hrest].
Qed.

Lemma range_batches_scanned_range (address : string) (nd : Node)
      (attempt : nat) (lo hi : Z) :
  StronglySorted block_order (range_batches address nd attempt (range lo (hi + 1)))
  /\ Forall (scanned_from address lo hi)
            (range_batches address nd attempt (range lo (hi + 1))).
Proof.
  destruct (Z_le_gt_dec lo hi) as [Hle|Hgt].
  - pose proof (range_batches_scanned address nd (Z.to_nat (hi + 1 - lo))
                                      lo attempt) as H.
    replace (lo + Z.of_nat (Z.to_nat (hi + 1 - lo))) with (hi + 1) in H by lia.
    now replace (hi + 1 - 1) with hi in H by lia.
  - rewrite range_nil by lia. split; constructor.
Qed.

(** X1.  The batches [get_world_chain_batches] returns come in ascending
    block order; each has a block number within the scanned range, the
    hex text of its own transaction's hash as [transaction_hash], and a
    transaction that passes both tests of the scan. *)
Theorem scan_returns_ordered_batches
        (address : string) (start_block end_block : Z) (w : World) :
  exists batches w',
    get_world_chain_batches address start_block (Some end_block) w
    = (Ok batches, w')
    /\ StronglySorted block_order batches
    /\ Forall (scanned_from address start_block end_block) batches.
Proof.
  rewrite get_world_chain_batches_run. do 2 eexists.
  split; [reflexivity|]. apply range_batches_scanned_range.
Qed.

(** ** Letter case of the rollup address *)

Lemma ascii_lower_idempotent (c : ascii) :
  ascii_lower (ascii_lower c) = ascii_lower c.
Proof. destruct c as [[] [] [] [] [] [] [] []]; reflexivity. Qed.

Lemma lower_idempotent (s : string) : lower (lower s) = lower s.
Proof.
  induction s as [|c s IH]; cbn [lower]; [reflexivity|].
  now rewrite ascii_lower_idempotent, IH.
Qed.

Lemma to_world_chain_case (a1 a2 : string) (tx : Tx) :
  lower a1 = lower a2 -> to_world_chain a1 tx = to_world_chain a2 tx.
Proof. intros H. unfold to_world_chain. now rewrite H. Qed.

Lemma range_batches_case (a1 a2 : string) (nd : Node) (blocks : list Z) :
  lower a1 = lower a2 ->
  forall attempt,
    range_batches a1 nd attempt blocks = range_batches a2 nd attempt blocks.
Proof.
  intros H. induction blocks as [|n blocks IH]; intros attempt;
    cbn [range_batches]; [reflexivity|].
  rewrite IH. f_equal. unfold block_batches.
  destruct (eth_getBlockByNumber nd attempt n); [reflexivity|].
  f_equal. apply filter_ext. intros tx. now rewrite (to_world_chain_case a1 a2).
Qed.

(** X2.  Letter case does not count, on either side of the comparison:
    two configured addresses that agree up to case, such as an address
    and its lower-case form, give the same scan, open-ended or not, and
    two destinations that agree up to case pass or fail the test
    together. *)
Theorem scan_ignores_letter_case
        (address address' : string) (start_block : Z) (end_block : option Z)
        (w : World) (tx tx' : Tx) (a a' : string) :
  lower address = lower address' ->
  tx_to tx = Some a ->
  tx_to tx' = Some a' ->
  lower a = lower a' ->
  get_world_chain_batches address start_block end_block w
  = get_world_chain_batches address' start_block end_block w
  /\ get_world_chain_batches (lower address) start_block end_block w
     = get_world_chain_batches address start_block end_block w
  /\ to_world_chain address tx = to_world_chain address tx'.
Proof.
  intros Haddr Hto Hto' Hcase.
  assert (Hscan : forall a1 a2,
             lower a1 = lower a2 ->
             get_world_chain_batches a1 start_block end_block w
             = get_world_chain_batches a2 start_block end_block w).
  { intros a1 a2 H. destruct end_block as [e|].
    - rewrite !get_world_chain_batches_run.
      now rewrite (range_batches_case a1 a2).
    - unfold get_world_chain_batches, bind, get_latest_block.
      destruct (rpc_result _); [|reflexivity].
      rewrite !scan_range_run. now rewrite (range_batches_case a1 a2). }
  split; [now apply Hscan|]. split; [apply Hscan, lower_idempotent|].
  unfold to_world_chain. rewrite Hto, Hto', Hcase. f_equal. f_equal.
  destruct a, a'; try reflexivity; discriminate.
Qed.

Lemma scan_ignores_letter_case_witness :
  get_world_chain_batches "0xABCD" 100 (Some 104) (fresh_world steady_node)
  = get_world_chain_batches "0xabcd" 100 (Some 104) (fresh_world steady_node)
  /\ to_world_chain "0xABCD" tx_bb = to_world_chain "0xABCD" tx_aa.
Proof.
  destruct (scan_ignores_letter_case
              "0xABCD" "0xabcd" 100 (Some 104) (fresh_world steady_node)
              tx_bb tx_aa "0xabcd" "0xABCD"
              eq_refl eq_refl eq_refl eq_refl) as [H1 [_ H3]].
  split; assumption.
Defined.

(** ** A whole run of [fetch_batches] *)

Section Run.

Variable address : string.

Lemma fetch_loop_calls (fuel : nat) :
  forall current_block end_block w r w',
    fetch_loop address fuel current_block end_block w = Some (r, w') ->
    session_new w = [] ->
    rpc_attempts w'
    = (rpc_attempts w + Z.to_nat (end_block - current_block + 1))%nat.
Proof.
  induction fuel as [|fuel IH]; intros cur e w r w' H Hclean;
    cbn [fetch_loop] in H; destruct (cur <=? e) eqn:E; try discriminate;
    try (apply Z.leb_gt in E; inversion H; subst; lia).
  apply Z.leb_le in E.
  pose proof (fetch_window_run address cur e w Hclean) as Hrun.
  cbv zeta in Hrun. rewrite Hrun in H. clear Hrun.
  rewrite range_length in H.
  destruct (window_batches address w cur e);
    apply IH in H; try reflexivity; cbn [rpc_attempts] in H; rewrite H;
    unfold window_end, BATCH_SIZE; lia.
Qed.

(** X3.  A run of [fetch_batches] asks the node for every block of its
    range exactly once, whether windows are stored or refused: over
    [start_block..end_block] it makes as many calls as the range has
    blocks, none if the range is empty.  Without an end block it first
    asks for the latest block; if that call fails the run raises its
    error at once, with nothing scanned, logged or stored. *)
Theorem fetch_requests_each_block_once
        (start_block : Z) (end_block : option Z) (w : World) :
  session_new w = [] ->
  match end_block with
  | Some e =>
      exists w',
        fetch_batches address start_block (Some e) w = Some (Ok tt, w')
        /\ rpc_attempts w'
           = (rpc_attempts w + Z.to_nat (e - start_block + 1))%nat
  | None =>
      match eth_blockNumber (node w) (rpc_attempts w) with
      | inl f =>
          fetch_batches address start_block None w
          = Some (Raise (TransportError f), request_sent w)
      | inr latest =>
          exists w',
            fetch_batches address start_block None w = Some (Ok tt, w')
            /\ rpc_attempts w'
               = (S (rpc_attempts w) + Z.to_nat (latest - start_block + 1))%nat
      end
  end.
Proof.
  intros Hclean. destruct end_block as [e|].
  - unfold fetch_batches, ret.
    destruct (fetch_loop_total address (Z.to_nat (e - start_block + 1))
                start_block e w Hclean) as [w' [H _]]; [lia|].
    exists w'. split; [assumption|].
    exact (fetch_loop_calls _ _ _ _ _ _ H Hclean).
  - unfold fetch_batches, get_latest_block.
    destruct (eth_blockNumber (node w) (rpc_attempts w)) as [f|latest];
      cbn [rpc_result]; [reflexivity|].
    assert (Hc : session_new (request_sent w) = []) by exact Hclean.
    destruct (fetch_loop_total address (Z.to_nat (latest - start_block + 1))
                start_block latest (request_sent w) Hc) as [w' [H _]]; [lia|].
    exists w'. split; [assumption|].
    exact (fetch_loop_calls _ _ _ _ _ _ H Hc).
Qed.

Lemma filter_all {A} (p : A -> bool) (xs : list A) :
  Forall (fun x => p x = true) xs -> filter p xs = xs.
Proof.
  induction 1 as [|x xs Hx _ IH]; cbn [filter]; [reflexivity|].
  now rewrite Hx, IH.
Qed.


End Run.

Lemma fetch_requests_each_block_once_witness :
  exists w',
    fetch_batches rollup_address 100 (Some 104) (fresh_world sample_node)
    = Some (Ok tt, w')
    /\ rpc_attempts w' = 5%nat.
Proof.
  exact (fetch_requests_each_block_once
           rollup_address 100 (Some 104) (fresh_world sample_node) eq_refl).
Defined.


(** ** A run stores no row *)

Section NoRow.

Variable address : string.


End NoRow.


(** ** Marking a record processed *)

Lemma set_processed_columns (batch_id : Z) (rows : list BatchSubmission) :
  map row_columns (set_processed batch_id rows) = map row_columns rows.
Proof.
  induction rows as [|r rows IH]; cbn [set_processed]; [reflexivity|].
  destruct (id r =? batch_id); cbn [map]; [reflexivity|now rewrite IH].
Qed.

Lemma set_processed_absent (batch_id : Z) (rows : list BatchSubmission) :
  existsb (fun r => id r =? batch_id) rows = false ->
  set_processed batch_id rows = rows.
Proof.
  induction rows as [|r rows IH]; cbn [set_processed existsb]; [reflexivity|].
  intros H. apply orb_false_iff in H. destruct H as [-> H]. now rewrite IH.
Qed.

Lemma set_processed_twice (batch_id : Z) (rows : list BatchSubmission) :
  set_processed batch_id (set_processed batch_id rows)
  = set_processed batch_id rows.
Proof.
  induction rows as [|r rows IH]; cbn [set_processed]; [reflexivity|].
  destruct (id r =? batch_id) eqn:E; cbn [set_processed id].
  - now rewrite E.
  - now rewrite E, IH.
Qed.

Lemma filter_other_id_all (batch_id : Z) (rows : list BatchSubmission) :
  ~ In batch_id (map id rows) -> filter (other_id batch_id) rows = rows.
Proof.
  intros H. apply filter_all. apply Forall_forall. intros r Hr.
  unfold other_id. apply negb_true_iff, Z.eqb_neq. intros Heq.
  apply H. rewrite <- Heq. now apply in_map.
Qed.

Lemma set_processed_pending (batch_id : Z) (rows : list BatchSubmission) :
  NoDup (map id rows) ->
  filter (fun b => processed b =? 0) (set_processed batch_id rows)
  = filter (other_id batch_id) (filter (fun b => processed b =? 0) rows).
Proof.
  induction rows as [|r rows IH]; intros Hnd; cbn [set_processed];
    [reflexivity|].
  inversion Hnd as [|? ? Hr Hnd']; subst.
  destruct (id r =? batch_id) eqn:E.
  - apply Z.eqb_eq in E. cbn [filter processed]. cbn [Z.eqb].
    assert (Hrest : filter (other_id batch_id)
                           (filter (fun b => processed b =? 0) rows)
                    = filter (fun b => processed b =? 0) rows).
    { apply filter_other_id_all. intros Hin. apply Hr. rewrite E.
      apply in_map_iff in Hin. destruct Hin as [x [Hx Hin]].
      apply filter_In in Hin. rewrite <- Hx. apply in_map. tauto. }
    destruct (processed r =? 0); cbn [filter]; [|now rewrite Hrest].
    unfold other_id at 1. apply Z.eqb_eq in E. rewrite E. cbn [negb].
    now rewrite Hrest.
  - cbn [filter]. destruct (processed r =? 0); cbn [filter].
    + unfold other_id at 1. rewrite E. cbn [negb]. now rewrite IH.
    + now apply IH.
Qed.

Lemma mark_as_processed_run (batch_id : Z) (w : World) :
  session_new w = [] ->
  mark_as_processed batch_id w
  = (Ok tt,
     mkWorld (node w) (rpc_attempts w) (utcnow w) (clock_reads w)
             (set_processed batch_id (db w)) [] (log w)).
Proof.
  intros Hclean. unfold mark_as_processed, bind, session_commit, session_flush.
  rewrite Hclean. cbn [flush].
  cbn [node rpc_attempts utcnow clock_reads db session_new log].
  destruct (existsb _ (db w)) eqn:E.
  - reflexivity.
  - now rewrite (set_processed_absent _ _ E).
Qed.

(** X6.  With nothing pending in the session and distinct primary keys,
    [mark_as_processed] returns, and changes only the [processed] column:
    the pending records afterwards are those from before without the one
    of the given id; marking an id that no row has changes nothing at
    all; and marking the same id again changes nothing further. *)
Theorem mark_as_processed_removes_one_pending (batch_id : Z) (w : World) :
  session_new w = [] ->
  NoDup (map id (db w)) ->
  exists w',
    mark_as_processed batch_id w = (Ok tt, w')
    /\ map row_columns (db w') = map row_columns (db w)
    /\ pending_rows w' = filter (other_id batch_id) (pending_rows w)
    /\ log w' = log w
    /\ (~ In batch_id (map id (db w)) -> w' = w)
    /\ mark_as_processed batch_id w' = (Ok tt, w').
Proof.
  intros Hclean Hnd. rewrite (mark_as_processed_run batch_id w Hclean).
  eexists. split; [reflexivity|]. cbn [db log].
  split; [apply set_processed_columns|].
  split; [unfold pending_rows, get_unprocessed_batches; cbn [fst db];
          now apply set_processed_pending|].
  split; [reflexivity|]. split.
  - intros Habsent. rewrite set_processed_absent.
    + destruct w. cbn in Hclean. now subst.
    + apply not_true_is_false. intros Hex. apply Habsent.
      apply existsb_exists in Hex. destruct Hex as [r [Hr Heq]].
      apply Z.eqb_eq in Heq. rewrite <- Heq. now apply in_map.
  - rewrite mark_as_processed_run by reflexivity.
    cbn [node rpc_attempts utcnow clock_reads db session_new log].
    now rewrite set_processed_twice.
Qed.

Lemma mark_as_processed_removes_one_pending_witness :
  let w := world_with_table steady_node table_by_block in
  exists w',
    mark_as_processed 2 w = (Ok tt, w')
    /\ map transaction_hash (pending_rows w) = ["0xbb"; "0xaa"; "0xee"]
    /\ map transaction_hash (pending_rows w') = ["0xbb"; "0xee"].
Proof.
  intro w.
  destruct (mark_as_processed_removes_one_pending 2 w)
    as [w' [Hrun [_ [Hpending _]]]].
  - reflexivity.
  - vm_compute. repeat constructor; simpl; intuition discriminate.
  - exists w'. split; [exact Hrun|]. split; [reflexivity|].
    rewrite Hpending. reflexivity.
Defined.

(** ** What [_decode_blob] makes of a decoded item *)

Section DecodeBlob.

Variable rlp_decode : bytes -> result RlpItem.

Lemma hex_items_loop (items : list RlpItem) :
  forall (hexes : list string) (w : World),
    for_acc items
      (fun hexes item =>
         match item with
         | RlpBytes b => ret (hexes ++ [to_hex b])
         | RlpList _ => raise (TypeError "Unsupported type: list")
         end)
      hexes w
    = match all_bytes items with
      | Some bs => (Ok (hexes ++ map to_hex bs), w)
      | None => (Raise nested_list, w)
      end.
Proof.
  induction items as [|item items IH]; intros hexes w; cbn [for_acc all_bytes].
  - unfold ret. now rewrite app_nil_r.
  - destruct item as [b|nested]; unfold bind; [|reflexivity].
    unfold ret at 1. rewrite IH.
    destruct (all_bytes items); [|reflexivity].
    cbn [map]. now rewrite <- app_assoc.
Qed.

Lemma hex_items_run (decoded : RlpItem) (w : World) :
  hex_items decoded w
  = match hex_values decoded with
    | Some hexes => (Ok hexes, w)
    | None => (Raise nested_list, w)
    end.
Proof.
  destruct decoded as [b|items]; cbn [hex_items hex_values]; [reflexivity|].
  rewrite hex_items_loop. now destruct (all_bytes items).
Qed.

(** X7.  When [rlp.decode] accepts the blob, [_decode_blob] returns the
    hex text of the blob, its length, and as [decoded_data] the hex text
    of each byte string of a flat list in order, or of each single byte
    when the item is one byte string; nothing is logged.  When the
    decoded list holds a nested list, [_decode_blob] raises [TypeError]
    although the RLP was well formed, and logs one record. *)
Theorem decode_blob_of_decoded_item
        (blob_content : bytes) (decoded : RlpItem) (w : World) :
  rlp_decode blob_content = Ok decoded ->
  _decode_blob rlp_decode blob_content w
  = match hex_values decoded with
    | Some hexes =>
        (Ok (mkDecodedBlob (to_hex blob_content) hexes
                           (Z.of_nat (List.length blob_content))), w)
    | None =>
        (Raise nested_list, scan_world w 0 [ErrorBlobDecoding nested_list])
    end.
Proof.
  intros H. unfold _decode_blob, try_except, bind, decode_rlp, try_except.
  rewrite H, hex_items_run.
  destruct (hex_values decoded); [reflexivity|].
  unfold logger, raise, scan_world.
  cbn [node rpc_attempts utcnow clock_reads db session_new log].
  now rewrite Nat.add_0_r.
Qed.

End DecodeBlob.

Lemma decode_blob_of_decoded_item_witness :
  let w := fresh_world steady_node in
  fst (_decode_blob rlp_decode_strict cat_dog_blob w)
  = Ok (mkDecodedBlob "0xc88363617483646f67" ["0x636174"; "0x646f67"] 9)
  /\ fst (_decode_blob rlp_decode_strict nested_blob w) = Raise nested_list.
Proof.
  intro w. split.
  - rewrite (decode_blob_of_decoded_item
               rlp_decode_strict cat_dog_blob
               (RlpList [RlpBytes [Byte.x63; Byte.x61; Byte.x74];
                         RlpBytes [Byte.x64; Byte.x6f; Byte.x67]]) w eq_refl).
    reflexivity.
  - rewrite (decode_blob_of_decoded_item
               rlp_decode_strict nested_blob (RlpList [RlpList []]) w eq_refl).
    reflexivity.
Defined.

(** ** Which dictionaries [validate_batch] accepts *)

(** X8.  [validate_batch] accepts every dictionary [decode_batch] builds
    and rejects every dictionary [reconstruct_batch] builds, which has no
    ['blobs'] key; in general it accepts a dictionary exactly when the
    three required keys are present and ['blobs'] holds a list, whatever
    other keys there are. *)
Theorem validate_batch_accepts_decoded
        (decoded : DecodedBatch) (reconstructed : ReconstructedBatch)
        (d : PyDict) :
  validate_batch (decoded_batch_dict decoded) = true
  /\ validate_batch (reconstructed_dict reconstructed) = false
  /\ (validate_batch d = true
      <-> has_key d "block_number" = true
          /\ has_key d "transaction_hash" = true
          /\ exists items, lookup d "blobs" = Some (PyList items)).
Proof.
  split; [reflexivity|]. split; [reflexivity|].
  unfold validate_batch. cbn [forallb]. rewrite andb_true_r.
  assert (Hkey : forall v, lookup d "blobs" = Some v -> has_key d "blobs" = true).
  { intros v. unfold has_key. induction d as [|[k x] d IH]; cbn [lookup existsb fst];
      [discriminate|].
    destruct (k =? "blobs")%string; [reflexivity|]. exact IH. }
  split.
  - destruct (has_key d "block_number"), (has_key d "transaction_hash"),
      (has_key d "blobs"); cbn; try discriminate.
    destruct (lookup d "blobs") as [[| | |items|]|]; try discriminate.
    intros _. repeat split. now exists items.
  - intros [-> [-> [items Hl]]]. rewrite (Hkey _ Hl), Hl. reflexivity.
Qed.

(** ** What the decode loop of [main] leaves behind *)

(** X9.  [main] hands [decode_batch] the [BatchSubmission] object itself,
    which cannot be subscripted: for any list of records the loop
    returns, with every decoding raised as [TypeError]; no record is
    marked processed, the table and the pending records are what they
    were, the node is not called, and no metrics or sizes are collected,
    whatever the metrics collaborator would compute. *)
Theorem main_decode_loop_processes_nothing
        (rlp_decode : bytes -> result RlpItem) (Metrics : Type)
        (calculate_batch_metrics : DecodedBatch -> M Metrics)
        (len_str_decoded : DecodedBatch -> Z)
        (len_str_reconstructed : ReconstructedBatch -> Z)
        (_matches_criteria : L2Tx -> bool)
        (unprocessed_batches : list BatchSubmission) (batch : BatchSubmission)
        (s : MainState Metrics) :
  fst (decode_batch rlp_decode (RowBatch batch) (world s))
  = Raise not_subscriptable
  /\ exists s',
      decode_loop rlp_decode Metrics calculate_batch_metrics len_str_decoded
                  len_str_reconstructed _matches_criteria
                  unprocessed_batches s
      = (Ok tt, s')
      /\ db (world s') = db (world s)
      /\ pending_rows (world s') = pending_rows (world s)
      /\ rpc_attempts (world s') = rpc_attempts (world s)
      /\ metrics_data s' = metrics_data s
      /\ original_sizes s' = original_sizes s
      /\ modified_sizes s' = modified_sizes s.
Proof.
  split; [now rewrite decode_batch_run|].
  rewrite decode_loop_run. eexists. split; [reflexivity|].
  cbn [world metrics_data original_sizes modified_sizes scan_world db
       rpc_attempts].
  repeat split. apply Nat.add_0_r.
Qed.

(** ** [filter_transactions] *)

(** X10.  [filter_transactions] keeps exactly the transactions that match
    the criteria, in their order: a transaction is in the result if and
    only if it was in the input and matches; filtering a concatenation
    filters its parts; and filtering the result again changes nothing. *)
Theorem filter_transactions_keeps_matches
        (_matches_criteria : L2Tx -> bool) (transactions more : list L2Tx)
        (tx : L2Tx) :
  (In tx (filter_transactions _matches_criteria transactions)
   <-> In tx transactions /\ _matches_criteria tx = true)
  /\ filter_transactions _matches_criteria (transactions ++ more)
     = filter_transactions _matches_criteria transactions
       ++ filter_transactions _matches_criteria more
  /\ filter_transactions _matches_criteria
       (filter_transactions _matches_criteria transactions)
     = filter_transactions _matches_criteria transactions.
Proof.
  assert (H : forall txs,
             filter_transactions _matches_criteria txs
             = filter _matches_criteria txs).
  { intros txs. unfold filter_transactions.
    rewrite (fold_left_select _matches_criteria (fun t => t)).
    now rewrite map_id. }
  rewrite !H. split; [apply filter_In|]. split; [apply filter_app|].
  rewrite filter_filter. apply filter_ext. intros x. apply andb_diag.
Qed.

(** ** Counting transaction types *)

Lemma counts_get_set (type_counts : list (string * Z)) (key key' : string)
      (value : Z) :
  counts_get (counts_set type_counts key value) key'
  = if (key =? key')%string then value else counts_get type_counts key'.
Proof.
  induction type_counts as [|[k v] rest IH]; cbn [counts_set counts_get].
  - reflexivity.
  - destruct (k =? key)%string eqn:E; cbn [counts_get].
    + apply String.eqb_eq in E. subst k.
      now destruct (key =? key')%string.
    + rewrite IH. destruct (k =? key')%string eqn:E'; [|reflexivity].
      apply String.eqb_eq in E'. subst k.
      rewrite String.eqb_sym in E. now rewrite E.
Qed.

Lemma counts_set_keys (type_counts : list (string * Z)) (key : string)
      (value : Z) :
  map fst (counts_set type_counts key value)
  = if existsb (fun kv => (fst kv =? key)%string) type_counts
    then map fst type_counts
    else map fst type_counts ++ [key].
Proof.
  induction type_counts as [|[k v] rest IH]; cbn [counts_set existsb map fst].
  - reflexivity.
  - destruct (k =? key)%string; cbn [map fst orb]; [reflexivity|].
    rewrite IH. now destruct (existsb _ rest).
Qed.

Lemma counts_set_total (type_counts : list (string * Z)) (key : string)
      (value : Z) :
  counts_total (counts_set type_counts key value)
  = counts_total type_counts - counts_get type_counts key + value.
Proof.
  induction type_counts as [|[k v] rest IH];
    cbn [counts_set counts_get counts_total fold_right snd].
  - lia.
  - destruct (k =? key)%string; cbn [counts_total fold_right snd].
    + unfold counts_total. lia.
    + fold (counts_total (counts_set rest key value)).
      fold (counts_total rest). rewrite IH. lia.
Qed.

Lemma counts_loop (transactions : list L2Tx) :
  forall type_counts seen,
    NoDup (map fst type_counts) ->
    (forall t, counts_get type_counts t
               = Z.of_nat (count_occ string_dec seen t)) ->
    counts_total type_counts = Z.of_nat (List.length seen) ->
    (forall t, In t (map fst type_counts) <-> In t seen) ->
    let result :=
      fold_left
        (fun type_counts tx =>
           let tx_type := type_or_unknown tx in
           counts_set type_counts tx_type (counts_get type_counts tx_type + 1))
        transactions type_counts in
    let all := seen ++ map type_or_unknown transactions in
    NoDup (map fst result)
    /\ (forall t, counts_get result t = Z.of_nat (count_occ string_dec all t))
    /\ counts_total result = Z.of_nat (List.length all)
    /\ (forall t, In t (map fst result) <-> In t all).
Proof.
  induction transactions as [|tx txs IH];
    intros counts seen Hnd Hget Htotal Hkeys; cbn [fold_left map].
  - cbv zeta. rewrite app_nil_r. auto.
  - cbv zeta.
    replace (seen ++ type_or_unknown tx :: map type_or_unknown txs)
      with ((seen ++ [type_or_unknown tx]) ++ map type_or_unknown txs)
      by now rewrite <- app_assoc.
    assert (Hex : existsb (fun kv => (fst kv =? type_or_unknown tx)%string)
                          counts = true
                  <-> In (type_or_unknown tx) (map fst counts)).
    { rewrite existsb_exists, in_map_iff.
      split; intros [kv [H1 H2]]; exists kv.
      - apply String.eqb_eq in H2. now split.
      - split; [assumption|]. now apply String.eqb_eq. }
    apply IH.
    + rewrite counts_set_keys.
      destruct (existsb _ counts) eqn:E; [assumption|].
      apply NoDup_snoc; [assumption|]. intros Hin.
      apply Hex in Hin. congruence.
    + intros t. rewrite counts_get_set, count_occ_app. cbn [count_occ].
      rewrite !Hget.
      destruct (string_dec (type_or_unknown tx) t) as [->|Hne].
      * rewrite String.eqb_refl. lia.
      * apply String.eqb_neq in Hne. rewrite Hne. lia.
    + rewrite counts_set_total, Htotal, length_app. cbn [List.length]. lia.
    + intros t. rewrite counts_set_keys, in_app_iff. cbn [In].
      destruct (existsb _ counts) eqn:E.
      * rewrite Hkeys. split; [tauto|]. intros [H|[<-|[]]]; [assumption|].
        apply Hkeys. now apply Hex.
      * rewrite in_app_iff, Hkeys. cbn [In]. tauto.
Qed.

(** X11.  The dictionary [_count_transaction_types] returns has each
    transaction type of the batch as a key, once; the count under a type
    is the number of transactions of that type, a transaction without a
    type counting under ['UNKNOWN']; and the counts add up to the number
    of transactions.  A batch without a ['transactions'] key gives the
    empty dictionary. *)
Theorem count_transaction_types_counts
        (transactions : list L2Tx) (tx_type : string) :
  let type_counts := _count_transaction_types (Some transactions) in
  NoDup (map fst type_counts)
  /\ counts_get type_counts tx_type
     = Z.of_nat (count_occ string_dec
                           (map type_or_unknown transactions) tx_type)
  /\ counts_total type_counts = Z.of_nat (List.length transactions)
  /\ (In tx_type (map fst type_counts)
      <-> In tx_type (map type_or_unknown transactions))
  /\ _count_transaction_types None = [].
Proof.
  cbv zeta. unfold _count_transaction_types.
  destruct (counts_loop transactions [] []) as [Hnd [Hget [Htotal Hkeys]]];
    [constructor|reflexivity|reflexivity|reflexivity|].
  cbn [app] in Hget, Htotal, Hkeys. rewrite length_map in Htotal.
  repeat split; try assumption; try apply Hget; apply Hkeys.
Qed.

(** ** Compressing and decompressing a batch *)

(** X12.  With an algorithm other than ['zlib'] and ['brotli'], both
    [compress_batch] and [decompress_batch] log the error and raise
    [ValueError]; with one of the two, and libraries whose decompression
    undoes their compression, [compress_batch] returns bytes (never
    [None]) that [decompress_batch] with the same algorithm turns back
    into the input, and nothing is logged. *)
Theorem compress_then_decompress
        (zlib_compress brotli_compress : bytes -> bytes)
        (zlib_decompress brotli_decompress : bytes -> result bytes)
        (batch_data : bytes) (algorithm : string) (lg : list ModifierLog) :
  (forall data, zlib_decompress (zlib_compress data) = Ok data) ->
  (forall data, brotli_decompress (brotli_compress data) = Ok data) ->
  if existsb (String.eqb algorithm) COMPRESSION_ALGORITHMS
  then
    exists compressed,
      compress_batch zlib_compress brotli_compress batch_data algorithm lg
      = (Ok (Some compressed), lg)
      /\ decompress_batch zlib_decompress brotli_decompress
                          compressed algorithm lg
         = (Ok (Some batch_data), lg)
  else
    compress_batch zlib_compress brotli_compress batch_data algorithm lg
    = (Raise (unsupported_algorithm algorithm),
       lg ++ [ErrorCompressing (unsupported_algorithm algorithm)])
    /\ decompress_batch zlib_decompress brotli_decompress
                        batch_data algorithm lg
       = (Raise (unsupported_algorithm algorithm),
          lg ++ [ErrorDecompressing (unsupported_algorithm algorithm)]).
Proof.
  intros Hz Hb. unfold compress_batch, decompress_batch, try_except.
  unfold COMPRESSION_ALGORITHMS. cbn [existsb].
  destruct (algorithm =? "zlib")%string eqn:Ez.
  - cbn [orb negb]. unfold ret, bind. eexists. split; [reflexivity|].
    now rewrite Hz.
  - destruct (algorithm =? "brotli")%string eqn:Eb.
    + cbn [orb negb]. unfold ret, bind. eexists. split; [reflexivity|].
      now rewrite Hb.
    + cbn [orb negb]. split; reflexivity.
Qed.

Lemma compress_then_decompress_witness :
  exists compressed,
    compress_batch (fun data => data) (fun data => rev data)
                   truncated_blob "brotli" []
    = (Ok (Some compressed), [])
    /\ decompress_batch (fun data => Ok data) (fun data => Ok (rev data))
                        compressed "brotli" []
       = (Ok (Some truncated_blob), []).
Proof.
  exact (compress_then_decompress
           (fun data => data) (fun data => rev data)
           (fun data => Ok data) (fun data => Ok (rev data))
           truncated_blob "brotli" []
           (fun data => eq_refl)
           (fun data => f_equal Ok (rev_involutive data))).
Defined.

(** ** The blob transactions of one block *)

(** X13.  [get_blob_transactions] makes one call for the block.  When
    the call fails, its error is raised to the caller, and nothing is
    logged; when it succeeds, the result holds exactly the transactions
    of the block whose type is 3, in the block's order, so a block
    without such transactions gives the empty list. *)
Theorem get_blob_transactions_keeps_type_3
        (block_number : Z) (w : World) (tx : Tx) :
  snd (get_blob_transactions block_number w) = request_sent w
  /\ match eth_getBlockByNumber (node w) (rpc_attempts w) block_number with
     | inl f =>
         fst (get_blob_transactions block_number w)
         = Raise (TransportError f)
     | inr blk =>
         exists blob_txs,
           fst (get_blob_transactions block_number w) = Ok blob_txs
           /\ blob_txs = filter is_blob_type (transactions blk)
           /\ (In tx blob_txs
               <-> In tx (transactions blk) /\ tx_type tx = Some 3)
     end.
Proof.
  rewrite get_blob_transactions_run. split; [reflexivity|].
  destruct (eth_getBlockByNumber (node w) (rpc_attempts w) block_number)
    as [f|blk]; [reflexivity|].
  eexists. split; [reflexivity|]. split; [reflexivity|].
  now rewrite filter_In, is_blob_type_iff.
Qed.

(** ** Marking several records *)

Lemma set_processed_ids (batch_id : Z) (rows : list BatchSubmission) :
  map id (set_processed batch_id rows) = map id rows.
Proof.
  induction rows as [|r rows IH]; cbn [set_processed]; [reflexivity|].
  destruct (id r =? batch_id); cbn [map id]; [reflexivity|now rewrite IH].
Qed.

(** X14.  Marking a list of ids one after the other, with nothing pending
    in the session and distinct primary keys, returns and leaves pending
    exactly the records whose id is not in the list, in their order; so
    marking the ids of all pending records leaves none pending. *)
Theorem marking_ids_leaves_the_others_pending (ids : list Z) (w : World) :
  session_new w = [] ->
  NoDup (map id (db w)) ->
  exists w',
    for_each ids mark_as_processed w = (Ok tt, w')
    /\ pending_rows w' = filter (not_marked ids) (pending_rows w)
    /\ map row_columns (db w') = map row_columns (db w)
    /\ (incl (map id (pending_rows w)) ids -> pending_rows w' = []).
Proof.
  intros Hclean Hnd.
  assert (H : exists w',
             for_each ids mark_as_processed w = (Ok tt, w')
             /\ pending_rows w' = filter (not_marked ids) (pending_rows w)
             /\ map row_columns (db w') = map row_columns (db w)).
  { revert w Hclean Hnd. induction ids as [|batch_id ids IH]; intros w Hclean Hnd.
    - exists w. split; [reflexivity|]. split; [|reflexivity].
      symmetry. apply filter_all. apply Forall_forall. reflexivity.
    - cbn [for_each]. unfold bind.
      rewrite (mark_as_processed_run batch_id w Hclean).
      match goal with
      | |- exists _, for_each _ _ ?W = _ /\ _ =>
          destruct (IH W) as [w' [Hrun [Hpending Hcols]]]
      end; [reflexivity|cbn [db]; now rewrite set_processed_ids|].
      exists w'. split; [exact Hrun|]. split.
      + rewrite Hpending. unfold pending_rows, get_unprocessed_batches.
        cbn [fst db]. rewrite (set_processed_pending _ _ Hnd), filter_filter.
        apply filter_ext. intros r. unfold other_id, not_marked.
        cbn [existsb]. now rewrite negb_orb.
      + rewrite Hcols. cbn [db]. apply set_processed_columns. }
  destruct H as [w' [Hrun [Hpending Hcols]]].
  exists w'. split; [exact Hrun|]. split; [exact Hpending|].
  split; [exact Hcols|].
  intros Hincl. rewrite Hpending. clear Hpending.
  induction (pending_rows w) as [|r rows IH]; [reflexivity|].
  cbn [filter]. unfold not_marked at 1.
  assert (Hin : existsb (fun batch_id => id r =? batch_id) ids = true).
  { apply existsb_exists. exists (id r). split; [|apply Z.eqb_refl].
    apply Hincl. now left. }
  rewrite Hin. cbn [negb]. apply IH.
  intros x Hx. apply Hincl. now right.
Qed.

Lemma marking_ids_leaves_the_others_pending_witness :
  let w := world_with_table steady_node table_by_block in
  exists w',
    for_each [1; 2; 3] mark_as_processed w = (Ok tt, w')
    /\ pending_rows w' = [].
Proof.
  intro w.
  destruct (marking_ids_leaves_the_others_pending [1; 2; 3] w)
    as [w' [Hrun [_ [_ Hnone]]]].
  - reflexivity.
  - vm_compute. repeat constructor; simpl; intuition discriminate.
  - exists w'. split; [exact Hrun|]. apply Hnone.
    vm_compute. intros x Hx. exact Hx.
Defined.

(** ** Resuming a run at a window boundary *)

Section Resume.

Variable address : string.

(** More turns than the loop needs change nothing. *)
Lemma fetch_loop_fuel (fuel : nat) :
  forall current_block end_block w x,
    fetch_loop address fuel current_block end_block w = Some x ->
    forall fuel', (fuel <= fuel')%nat ->
                  fetch_loop address fuel' current_block end_block w = Some x.
Proof.
  induction fuel as [|fuel IH]; intros cur e w x H fuel' Hle;
    cbn [fetch_loop] in H; destruct (cur <=? e) eqn:E; try discriminate.
  - destruct fuel'; cbn [fetch_loop]; now rewrite E.
  - destruct fuel' as [|fuel']; [lia|]. cbn [fetch_loop]. rewrite E.
    destruct (fetch_window address cur e w) as [[next|err] w1];
      [|assumption].
    apply (IH _ _ _ _ H). lia.
  - destruct fuel'; cbn [fetch_loop]; now rewrite E.
Qed.

(** A run is its first window followed by the run from where that window
    left the pointer. *)
Lemma fetch_batches_first_window (current_block end_block : Z) (w : World) :
  session_new w = [] ->
  current_block <= end_block ->
  exists next w1,
    fetch_window address current_block end_block w = (Ok next, w1)
    /\ session_new w1 = []
    /\ fetch_batches address current_block (Some end_block) w
       = fetch_batches address next (Some end_block) w1.
Proof.
  intros Hclean Hle.
  destruct (fetch_window_frame address current_block end_block w Hclean Hle)
    as [next [w1 [Hwin [Hc1 [_ [_ [Hlt _]]]]]]].
  exists next, w1. split; [assumption|]. split; [assumption|].
  unfold fetch_batches, ret.
  destruct (fetch_loop_total address (Z.to_nat (end_block - next + 1))
              next end_block w1 Hc1) as [w2 [H2 _]]; [lia|].
  rewrite H2.
  replace (Z.to_nat (end_block - current_block + 1))
    with (S (Z.to_nat (end_block - current_block))) by lia.
  cbn [fetch_loop]. apply Z.leb_le in Hle. rewrite Hle, Hwin.
  apply (fetch_loop_fuel _ _ _ _ _ H2). lia.
Qed.

Lemma fetch_window_same_end (current_block end_block end_block' : Z)
      (w : World) :
  session_new w = [] ->
  window_end current_block end_block = window_end current_block end_block' ->
  fetch_window address current_block end_block w
  = fetch_window address current_block end_block' w.
Proof.
  intros Hclean Hend.
  pose proof (fetch_window_run address current_block end_block w Hclean) as H1.
  pose proof (fetch_window_run address current_block end_block' w Hclean) as H2.
  cbv zeta in H1, H2. rewrite H1, H2. unfold window_batches.
  now rewrite Hend.
Qed.

(** X15.  A run can be cut at a window boundary: fetching the first [k]
    windows of a range and then, in the world that leaves, the rest of
    the range, ends in the same world (table, log, calls made) as
    fetching the whole range at once. *)
Theorem fetch_resumes_at_window_boundary
        (k : nat) (start_block end_block : Z) (w : World) :
  session_new w = [] ->
  let cut := start_block + BATCH_SIZE * Z.of_nat k in
  cut - 1 <= end_block ->
  exists w1 w2,
    fetch_batches address start_block (Some (cut - 1)) w = Some (Ok tt, w1)
    /\ fetch_batches address cut (Some end_block) w1 = Some (Ok tt, w2)
    /\ fetch_batches address start_block (Some end_block) w = Some (Ok tt, w2).
Proof.
  revert start_block w. induction k as [|k IH]; intros s w Hclean cut Hcut.
  - subst cut. replace (s + BATCH_SIZE * Z.of_nat 0) with s in * by lia.
    exists w.
    destruct (fetch_loop_total address (Z.to_nat (end_block - s + 1))
                s end_block w Hclean) as [w2 [H2 _]]; [lia|].
    exists w2. unfold fetch_batches, ret.
    rewrite fetch_loop_done by lia. auto.
  - assert (Hs : s + BATCH_SIZE - 1 <= cut - 1)
      by (subst cut; unfold BATCH_SIZE; lia).
    destruct (fetch_batches_first_window s (cut - 1) w Hclean)
      as [next [wa [Hwin [Hca Hrun]]]]; [unfold BATCH_SIZE in *; lia|].
    destruct (fetch_batches_first_window s end_block w Hclean)
      as [next' [wa' [Hwin' [_ Hrun']]]]; [unfold BATCH_SIZE in *; lia|].
    rewrite (fetch_window_same_end s (cut - 1) end_block w Hclean) in Hwin
      by (unfold window_end; lia).
    rewrite Hwin in Hwin'. inversion Hwin'; subst next' wa'. clear Hwin'.
    assert (Hnext : next = s + BATCH_SIZE).
    { pose proof (fetch_window_run address s end_block w Hclean) as H.
      cbv zeta in H. rewrite H in Hwin.
      destruct (window_batches address w s end_block); inversion Hwin;
        unfold window_end; lia. }
    subst next. rewrite Hrun, Hrun'.
    specialize (IH (s + BATCH_SIZE) wa Hca). cbv zeta in IH.
    replace (s + BATCH_SIZE + BATCH_SIZE * Z.of_nat k) with cut in IH
      by (subst cut; lia).
    apply IH. exact Hcut.
Qed.

End Resume.

Lemma fetch_resumes_at_window_boundary_witness :
  exists w1 w2,
    fetch_batches rollup_address 1 (Some 100) (fresh_world steady_node)
    = Some (Ok tt, w1)
    /\ fetch_batches rollup_address 101 (Some 104) w1 = Some (Ok tt, w2)
    /\ fetch_batches rollup_address 1 (Some 104) (fresh_world steady_node)
       = Some (Ok tt, w2).
Proof.
  exact (fetch_resumes_at_window_boundary
           rollup_address 1 1 104 (fresh_world steady_node)
           eq_refl ltac:(unfold BATCH_SIZE; lia)).
Defined.
